(** * autovaluate-pro: the historical-data sanitizer

    A shallow embedding of [utils/dataSanitizer.ts] (the revision that
    returns [{ insights, marginData }]) and the properties of its
    pipeline: ledger parser, relevance scorer, top-K selector,
    aggregator, insight composer and sensitivity checker.

    Conventions of the embedding.
    - A JavaScript string is a [string]: a sequence of 8-bit characters
      holding the UTF-8 text.  Case mapping, white space and the digit
      class are those of ASCII; a byte above 127 has no case and is not
      white space.  On ASCII text every string operation below agrees
      with the JavaScript built-in it is named after.
    - A JavaScript number is a binary64 [float]; [undefined] in an
      optional field is [None].
    - [Array.prototype.sort] is stable and is called with consistent
      comparators only, so its result is that of a stable insertion
      sort.

    The development goes on with the two revisions of the sanitizer
    that answer with a line of text (the compact one and the plain
    one), the cache key of [utils/cacheManager.ts] and the client-side
    encryption utilities. *)

From Stdlib Require Import ZArith NArith List String Ascii Bool Lia.
From Stdlib Require Import PrimFloat SpecFloat FloatOps.
From Stdlib Require Import Sorted Permutation DecimalString.
Import ListNotations.

Open Scope string_scope.
Open Scope Z_scope.

(** ** The JavaScript built-ins the sanitizer calls *)

Module JS.

(** *** Characters *)

Definition code (c : ascii) : N := N_of_ascii c.

Definition between (lo hi : N) (c : ascii) : bool :=
  ((lo <=? code c) && (code c <=? hi))%N.

(** TAB, LF, VT, FF, CR and SPACE. *)
Definition isWhiteSpace (c : ascii) : bool :=
  between 9 13 c || (code c =? 32)%N.

(** The line terminators LF and CR, which [.] of a regular expression
    does not match. *)
Definition isLineTerminator (c : ascii) : bool :=
  (code c =? 10)%N || (code c =? 13)%N.

Definition isDigit (c : ascii) : bool := between 48 57 c.

Definition lowerChar (c : ascii) : ascii :=
  if between 65 90 c then ascii_of_N (code c + 32) else c.

Definition upperChar (c : ascii) : ascii :=
  if between 97 122 c then ascii_of_N (code c - 32) else c.

Definition LF : ascii := ascii_of_N 10.
Definition comma : ascii := ascii_of_N 44.

(** *** Strings *)

Fixpoint mapStr (f : ascii -> ascii) (s : string) : string :=
  match s with
  | EmptyString => EmptyString
  | String c s' => String (f c) (mapStr f s')
  end.

Definition toLowerCase : string -> string := mapStr lowerChar.
Definition toUpperCase : string -> string := mapStr upperChar.

(** [includes s sub] is [s.includes(sub)]. *)
Fixpoint includes (s sub : string) : bool :=
  prefix sub s ||
  match s with
  | EmptyString => false
  | String _ s' => includes s' sub
  end.

Fixpoint trimStart (s : string) : string :=
  match s with
  | EmptyString => EmptyString
  | String c s' => if isWhiteSpace c then trimStart s' else s
  end.

Fixpoint trimEnd (s : string) : string :=
  match s with
  | EmptyString => EmptyString
  | String c s' =>
      match trimEnd s' with
      | EmptyString => if isWhiteSpace c then EmptyString else String c EmptyString
      | r => String c r
      end
  end.

Definition trim (s : string) : string := trimEnd (trimStart s).

(** [split sep s] is [s.split(sep)] for a one-character separator: never
    empty, [[""]] on the empty string. *)
Fixpoint split (sep : ascii) (s : string) : list string :=
  match s with
  | EmptyString => [EmptyString]
  | String c s' =>
      if Ascii.eqb c sep then EmptyString :: split sep s'
      else match split sep s' with
           | h :: t => String c h :: t
           | [] => [String c EmptyString]
           end
  end.

(** [join sep l] is [l.join(sep)]. *)
Definition join (sep : string) (l : list string) : string := String.concat sep l.

(** *** Truthiness *)

Definition truthyStr (s : string) : bool :=
  match s with EmptyString => false | _ => true end.

Definition truthyOptStr (o : option string) : bool :=
  match o with Some s => truthyStr s | None => false end.

(** A number is falsy when it is [0], [-0] or [NaN]. *)
Definition truthyNum (x : float) : bool := negb (is_nan x || is_zero x).

Definition truthyOptNum (o : option float) : bool :=
  match o with Some x => truthyNum x | None => false end.

(** [o?.toLowerCase() === s]: [undefined] equals no string. *)
Definition lowerEq (o : option string) (s : string) : bool :=
  match o with
  | Some x => (toLowerCase x =? toLowerCase s)%string
  | None => false
  end.

(** Template interpolation of an optional string. *)
Definition show (o : option string) : string :=
  match o with Some s => s | None => "undefined" end.

(** Template interpolation of an array length. *)
Definition showNat (n : nat) : string :=
  NilZero.string_of_uint (Nat.to_uint n).

(** *** Numbers *)

(** The binary64 value nearest to [n / d] (ties to even) for [0 <= n] and
    [0 < d], with the sign [neg].  The quotient is taken with at least
    62 bits and the remainder kept as a rounding location. *)
Definition roundRatio (neg : bool) (n d : Z) : float :=
  if n =? 0 then (if neg then neg_zero else zero)
  else
    let k := Z.log2 d - Z.log2 n + 64 in
    let n' := if 0 <=? k then n * 2 ^ k else n in
    let d' := if 0 <=? k then d else d * 2 ^ (- k) in
    let q := n' / d' in
    let r := n' mod d' in
    let loc := if r =? 0 then loc_Exact else loc_Inexact (2 * r ?= d') in
    SF2Prim (binary_round_aux prec emax neg q (- k) loc).

(** The number of an integer, as for an array length. *)
Definition ofZ (z : Z) : float := roundRatio (z <? 0) (Z.abs z) 1.
Definition ofNat (n : nat) : float := ofZ (Z.of_nat n).

Definition digitVal (c : ascii) : Z := Z.of_N (code c) - 48.

(** The longest prefix of decimal digits, as their values, and the rest. *)
Fixpoint takeDigits (s : string) : list Z * string :=
  match s with
  | String c s' =>
      if isDigit c then let (ds, r) := takeDigits s' in (digitVal c :: ds, r)
      else ([], s)
  | EmptyString => ([], s)
  end.

Definition digitsValue (ds : list Z) : Z :=
  fold_left (fun a d => 10 * a + d) ds 0.

Definition takeSign (s : string) : bool * string :=
  match s with
  | String "-" r => (true, r)
  | String "+" r => (false, r)
  | _ => (false, s)
  end.

(** The exponent part [e], [e+] or [e-] followed by digits; [0] and
    ignored when no digit follows. *)
Definition exponentPart (s : string) : Z :=
  match s with
  | String c r =>
      if Ascii.eqb (lowerChar c) "e" then
        let (eneg, r') := takeSign r in
        match fst (takeDigits r') with
        | [] => 0
        | ds => if eneg then - digitsValue ds else digitsValue ds
        end
      else 0
  | EmptyString => 0
  end.

(** [parseFloat] of a string: leading white space is skipped and the
    longest prefix that is a decimal literal is read; [NaN] when there
    is none. *)
Definition parseFloatStr (s : string) : float :=
  let (neg, s0) := takeSign (trimStart s) in
  if prefix "Infinity" s0 then (if neg then neg_infinity else infinity)
  else
    let (ip, s1) := takeDigits s0 in
    let (fp, s2) := match s1 with
                    | String "." r => takeDigits r
                    | _ => ([], s1)
                    end in
    match (ip ++ fp)%list with
    | [] => nan
    | ds =>
        let e10 := exponentPart s2 - Z.of_nat (List.length fp) in
        if 0 <=? e10 then roundRatio neg (digitsValue ds * 10 ^ e10) 1
        else roundRatio neg (digitsValue ds) (10 ^ (- e10))
    end.

(** [parseFloat(value)] of a cell; a missing cell is [undefined], whose
    string has no numeric prefix. *)
Definition parseFloat (value : option string) : float :=
  match value with
  | Some s => parseFloatStr s
  | None => nan
  end.

Definition showZ (n : Z) : string := NilZero.string_of_uint (N.to_uint (Z.to_N n)).

Fixpoint zeros (n : nat) : string :=
  match n with O => EmptyString | S n' => String "0" (zeros n') end.

Fixpoint stripZerosEnd (s : string) : string :=
  match s with
  | EmptyString => EmptyString
  | String c s' =>
      match stripZerosEnd s' with
      | EmptyString => if Ascii.eqb c "0" then EmptyString else String c EmptyString
      | r => String c r
      end
  end.

(** The digits of [n] with a point before the last [f] of them. *)
Definition fixedDigits (n : Z) (f : nat) : string :=
  let m := showZ n in
  let m := zeros (S f - String.length m) ++ m in
  let k := String.length m in
  match f with
  | O => m
  | _ => substring 0 (k - f) m ++ "." ++ substring (k - f) f m
  end.

(** The shortest decimal [s * 10^j] with [k] digits, [k] from [18 - fuel]
    on, that rounds to [x]; of two, the closer to the exact value [X],
    an even [s] on a tie. *)
Fixpoint shortest (fuel : nat) (k : Z) (len : Z) (X : Z) (x : float) : Z :=
  match fuel with
  | O => X
  | S fuel' =>
      let p := 10 ^ (len - k) in
      let s0 := X / p in
      let lo := s0 * p in
      let hi := (s0 + 1) * p in
      let okLo := PrimFloat.eqb (ofZ lo) x in
      let okHi := PrimFloat.eqb (ofZ hi) x in
      if okLo && okHi then
        match (X - lo ?= hi - X) with
        | Lt => lo
        | Gt => hi
        | Eq => if Z.even s0 then lo else hi
        end
      else if okLo then lo
      else if okHi then hi
      else shortest fuel' (k + 1) len X x
  end.

(** [String(x)] for an integral [x >= 1e21] of exact value [X]: always
    in exponent form. *)
Definition toStringLarge (X : Z) (x : float) : string :=
  let len := Z.of_nat (String.length (showZ X)) in
  let v := showZ (shortest 17 1 len X x) in
  let e := showNat (String.length v - 1) in
  match stripZerosEnd v with
  | String d EmptyString => String d EmptyString ++ "e+" ++ e
  | String d ds => String d EmptyString ++ "." ++ ds ++ "e+" ++ e
  | EmptyString => "0"
  end.

(** [x.toFixed(f)]. *)
Definition toFixed (x : float) (f : nat) : string :=
  match Prim2SF x with
  | S754_nan => "NaN"
  | S754_infinity s => if s then "-Infinity" else "Infinity"
  | S754_zero _ => fixedDigits 0 f
  | S754_finite s m e =>
      let sign := if s then "-" else "" in
      let num := if 0 <=? e then Zpos m * 2 ^ e else Zpos m in
      let den := if 0 <=? e then 1 else 2 ^ (- e) in
      if 10 ^ 21 * den <=? num then sign ++ toStringLarge num (abs x)
      else sign ++ fixedDigits ((2 * num * 10 ^ Z.of_nat f + den) / (2 * den)) f
  end.

(** *** Arrays *)

(** [l.slice(0, e)]: a negative [e] counts from the end. *)
Definition slice0 {A : Type} (l : list A) (e : Z) : list A :=
  let len := Z.of_nat (List.length l) in
  let k := if e <? 0 then Z.max (len + e) 0 else Z.min e len in
  firstn (Z.to_nat k) l.

(** [l.sort(cmp)] for a consistent comparator: [x] goes before the first
    element it does not have to follow, so equal elements keep their
    order. *)
Fixpoint insertBy {A : Type} (cmp : A -> A -> Z) (x : A) (l : list A) : list A :=
  match l with
  | [] => [x]
  | y :: l' => if cmp x y <=? 0 then x :: l else y :: insertBy cmp x l'
  end.

Fixpoint sortBy {A : Type} (cmp : A -> A -> Z) (l : list A) : list A :=
  match l with
  | [] => []
  | x :: l' => insertBy cmp x (sortBy cmp l')
  end.

(** [[...new Set(l)]]: the first occurrence of each string, in order. *)
Fixpoint uniq (l : list string) : list string :=
  match l with
  | [] => []
  | x :: l' => x :: filter (fun y => negb (y =? x)%string) (uniq l')
  end.

End JS.

(** ** The data model *)

Record HistoricalRecord := mkRecord {
  brand : option string;
  model : option string;
  variant : option string;
  year : option string;
  boughtPrice : option float;
  soldPrice : option float;
  date : option string
}.

Record TargetVehicle := mkTarget {
  target_brand : string;
  target_model : string
}.

Record AggregatedData := mkAggregated {
  brandModel : string;
  count : nat;
  avgMargin : float;
  years : list string
}.

Record MarginData := mkMargin {
  percentage : float;
  description : string
}.

Record ValuationInsight := mkInsight {
  insights : string;
  marginData : option MarginData
}.

(** ** Relevance scorer *)

Definition calculateRelevance (record : HistoricalRecord) (target : TargetVehicle) : Z :=
  let score := 0 in
  (* Exact brand match *)
  let score :=
    if JS.lowerEq (brand record) (target_brand target) then score + 50 else score in
  (* Exact model match *)
  let score :=
    if JS.lowerEq (model record) (target_model target) then score + 100 else score in
  (* Partial model match *)
  let score :=
    match model record with
    | Some m =>
        if JS.truthyStr m && JS.truthyStr (target_model target) then
          let recordModel := JS.toLowerCase m in
          let targetModel := JS.toLowerCase (target_model target) in
          if JS.includes recordModel targetModel || JS.includes targetModel recordModel
          then score + 75 else score
        else score
    | None => score
    end in
  score.

(** ** Ledger parser *)

Definition emptyRecord : HistoricalRecord :=
  mkRecord None None None None None None None.

(** One step of [headers.forEach]: the cell [value] under [header] is
    stored in every field whose token the header contains. *)
Definition assignCell (header : string) (value : option string)
    (record : HistoricalRecord) : HistoricalRecord :=
  let record :=
    if JS.includes header "brand" then
      mkRecord value (model record) (variant record) (year record)
        (boughtPrice record) (soldPrice record) (date record)
    else record in
  let record :=
    if JS.includes header "model" then
      mkRecord (brand record) value (variant record) (year record)
        (boughtPrice record) (soldPrice record) (date record)
    else record in
  let record :=
    if JS.includes header "variant" then
      mkRecord (brand record) (model record) value (year record)
        (boughtPrice record) (soldPrice record) (date record)
    else record in
  let record :=
    if JS.includes header "year" then
      mkRecord (brand record) (model record) (variant record) value
        (boughtPrice record) (soldPrice record) (date record)
    else record in
  let record :=
    if JS.includes header "date" then
      mkRecord (brand record) (model record) (variant record) (year record)
        (boughtPrice record) (soldPrice record) value
    else record in
  let record :=
    if JS.includes header "bought" || JS.includes header "purchase" then
      mkRecord (brand record) (model record) (variant record) (year record)
        (Some (JS.parseFloat value)) (soldPrice record) (date record)
    else record in
  let record :=
    if JS.includes header "sold" || JS.includes header "sale" then
      mkRecord (brand record) (model record) (variant record) (year record)
        (boughtPrice record) (Some (JS.parseFloat value)) (date record)
    else record in
  record.

(** [headers.forEach((header, index) => ...)] from [index] on;
    [values[index]] is [undefined] past the end of the row. *)
Fixpoint assignCells (headers : list string) (index : nat) (values : list string)
    (record : HistoricalRecord) : HistoricalRecord :=
  match headers with
  | [] => record
  | header :: rest =>
      assignCells rest (S index) values
        (assignCell header (nth_error values index) record)
  end.

Definition parseLine (headers : list string) (line : string) : HistoricalRecord :=
  let values := map JS.trim (JS.split JS.comma line) in
  assignCells headers 0 values emptyRecord.

Definition parseCSV (csvData : string) : list HistoricalRecord :=
  if negb (JS.truthyStr (JS.trim csvData)) then []
  else
    match JS.split JS.LF (JS.trim csvData) with
    | [] | [_] => []
    | header :: rows =>
        let headers := map JS.trim (JS.split JS.comma (JS.toLowerCase header)) in
        map (parseLine headers) rows
    end.

(** ** Top-K selector *)

Definition smartFilter (records : list HistoricalRecord) (target : TargetVehicle)
    (maxRecords : Z) : list HistoricalRecord :=
  let scored :=
    JS.sortBy (fun a b => snd b - snd a)
      (filter (fun item => 0 <? snd item)
         (map (fun record => (record, calculateRelevance record target)) records)) in
  map fst (JS.slice0 scored maxRecords).

(** ** Aggregator *)

Definition orUnknown (o : option string) : string :=
  match o with
  | Some s => if JS.truthyStr s then s else "Unknown"
  | None => "Unknown"
  end.

Definition groupKey (record : HistoricalRecord) : string :=
  orUnknown (brand record) ++ " " ++ orUnknown (model record).

(** The [Map] from key to records, in insertion order of the keys. *)
Fixpoint addToGroup (key : string) (record : HistoricalRecord)
    (groups : list (string * list HistoricalRecord))
    : list (string * list HistoricalRecord) :=
  match groups with
  | [] => [(key, [record])]
  | (k, rs) :: rest =>
      if (k =? key)%string then (k, (rs ++ [record])%list) :: rest
      else (k, rs) :: addToGroup key record rest
  end.

Definition groupRecords (records : list HistoricalRecord)
    : list (string * list HistoricalRecord) :=
  fold_left (fun groups record => addToGroup (groupKey record) record groups)
    records [].

(** [(r.soldPrice - r.boughtPrice) / r.boughtPrice * 100]; an absent
    price is [undefined], whose number is [NaN]. *)
Definition numberOf (o : option float) : float :=
  match o with Some x => x | None => nan end.

Definition marginOf (r : HistoricalRecord) : float :=
  ((numberOf (soldPrice r) - numberOf (boughtPrice r)) / numberOf (boughtPrice r) * 100)%float.

(** [r.boughtPrice && r.soldPrice && r.boughtPrice > 0] *)
Definition marginEligible (r : HistoricalRecord) : bool :=
  JS.truthyOptNum (boughtPrice r) && JS.truthyOptNum (soldPrice r)
  && PrimFloat.ltb 0 (numberOf (boughtPrice r)).

(** [margins.reduce((a, b) => a + b, 0) / margins.length] *)
Definition average (margins : list float) : float :=
  (fold_left PrimFloat.add margins 0 / JS.ofNat (List.length margins))%float.

Definition yearsOf (rs : list HistoricalRecord) : list string :=
  JS.uniq (flat_map (fun r => match year r with
                              | Some y => if JS.truthyStr y then [y] else []
                              | None => []
                              end) rs).

Definition aggregateGroup (g : string * list HistoricalRecord) : list AggregatedData :=
  let margins := map marginOf (filter marginEligible (snd g)) in
  match margins with
  | [] => []
  | _ => [mkAggregated (fst g) (List.length (snd g)) (average margins) (yearsOf (snd g))]
  end.

Definition byCount (a b : AggregatedData) : Z :=
  Z.of_nat (count b) - Z.of_nat (count a).

Definition aggregateData (records : list HistoricalRecord) : list AggregatedData :=
  JS.sortBy byCount (flat_map aggregateGroup (groupRecords records)).

(** ** Insight composer *)

Definition isExactMatch (target : TargetVehicle) (r : HistoricalRecord) : bool :=
  JS.lowerEq (brand r) (target_brand target) && JS.lowerEq (model r) (target_model target).

(** [txn.boughtPrice && txn.soldPrice] *)
Definition hasBothPrices (r : HistoricalRecord) : bool :=
  JS.truthyOptNum (boughtPrice r) && JS.truthyOptNum (soldPrice r).

(** The line computed in the body of [recentTxns.forEach]. *)
Definition lineText (txn : HistoricalRecord) : string :=
  let margin := marginOf txn in
  let dateStr := if JS.truthyOptStr (date txn) then "Date: " ++ JS.show (date txn)
                 else "Date: N/A" in
  let modelStr := JS.show (brand txn) ++ " " ++ JS.show (model txn) in
  let variantStr := if JS.truthyOptStr (variant txn) then " " ++ JS.show (variant txn)
                    else "" in
  let yearStr := if JS.truthyOptStr (year txn) then " (" ++ JS.show (year txn) ++ ")"
                 else "" in
  (* Format prices in Lakhs *)
  let buyLakhs := JS.toFixed (numberOf (boughtPrice txn) / 100000)%float 2 in
  let sellLakhs := JS.toFixed (numberOf (soldPrice txn) / 100000)%float 2 in
  "- " ++ dateStr ++ " | " ++ modelStr ++ variantStr ++ yearStr
    ++ " | Bought: ₹" ++ buyLakhs ++ "L | Sold: ₹" ++ sellLakhs
    ++ "L | Margin: " ++ JS.toFixed margin 1 ++ "%".

(** The body of [recentTxns.forEach]: the line is pushed only under the
    guard [txn.boughtPrice && txn.soldPrice]. *)
Definition transactionLine (txn : HistoricalRecord) : list string :=
  if hasBothPrices txn then [lineText txn] else [].

Definition priorityHeader (targetCar : TargetVehicle) : string :=
  "*** PRIORITY: YOUR PAST TRANSACTIONS FOR " ++ JS.toUpperCase (target_brand targetCar)
    ++ " " ++ JS.toUpperCase (target_model targetCar) ++ " ***".

Definition exactMargins (exactMatches : list HistoricalRecord) : list float :=
  map marginOf (filter hasBothPrices exactMatches).

Definition averageLine (margins : list float) : string :=
  "AVERAGE MARGIN for this model: " ++ JS.toFixed (average margins) 1 ++ "% over "
    ++ JS.showNat (List.length margins) ++ " transactions.".

Definition noExactLine (targetCar : TargetVehicle) : string :=
  "No exact past transactions for " ++ target_brand targetCar ++ " "
    ++ target_model targetCar ++ ".".

Definition contextLine (allRecords : list HistoricalRecord) : string :=
  String JS.LF "Database Context: " ++ JS.showNat (List.length allRecords)
    ++ " total records.".

Definition brandMatchesOf (targetCar : TargetVehicle) (aggregated : list AggregatedData)
    : list AggregatedData :=
  filter (fun a => JS.includes (JS.toLowerCase (brandModel a))
                     (JS.toLowerCase (target_brand targetCar))) aggregated.

(** The counts are array lengths; their sum is kept as a natural number
    and turned into a number where it is divided by or printed. *)
Definition totalCount (brandMatches : list AggregatedData) : nat :=
  fold_left (fun sum a => (sum + count a)%nat) brandMatches O.

Definition totalMarginOf (brandMatches : list AggregatedData) : float :=
  fold_left (fun sum a => (sum + avgMargin a * JS.ofNat (count a))%float) brandMatches 0%float.

(** The [insights] array and [marginData] built after the two early
    returns, from the parsed ledger. *)
Definition compose (allRecords : list HistoricalRecord) (targetCar : TargetVehicle)
    : list string * option MarginData :=
  let relevantRecords := smartFilter allRecords targetCar 50 in
  let aggregated := aggregateData relevantRecords in
  let exactMatches := filter (isExactMatch targetCar) relevantRecords in
  let '(lines, marginData) :=
    match exactMatches with
    | _ :: _ =>
        let recentTxns := JS.slice0 exactMatches 5 in
        let lines := (priorityHeader targetCar :: flat_map transactionLine recentTxns)%list in
        let margins := exactMargins exactMatches in
        match margins with
        | _ :: _ =>
            ((lines ++ [averageLine margins])%list,
             Some (mkMargin (average margins)
                     (JS.showNat (List.length margins) ++ " similar "
                        ++ target_brand targetCar ++ " " ++ target_model targetCar
                        ++ " transactions")))
        | [] => (lines, None)
        end
    | [] =>
        let brandMatches := brandMatchesOf targetCar aggregated in
        match brandMatches with
        | _ :: _ =>
            ([noExactLine targetCar],
             Some (mkMargin (totalMarginOf brandMatches / JS.ofNat (totalCount brandMatches))%float
                     (JS.showNat (totalCount brandMatches) ++ " " ++ target_brand targetCar
                        ++ " transactions (brand average)")))
        | [] => ([noExactLine targetCar], None)
        end
    end in
  ((lines ++ [contextLine allRecords])%list, marginData).

Definition sanitizeHistoricalData (csvData : string) (targetCar : TargetVehicle)
    : ValuationInsight :=
  if negb (JS.truthyStr csvData) || negb (JS.truthyStr (JS.trim csvData)) then
    mkInsight "No historical data available." None
  else
    let allRecords := parseCSV csvData in
    match allRecords with
    | [] => mkInsight "No valid historical data found." None
    | _ =>
        let '(lines, marginData) := compose allRecords targetCar in
        mkInsight (JS.join (String JS.LF "") lines) marginData
    end.

(** ** Sensitivity checker *)

(** The fragment of regular expressions the checker's patterns use, and
    [RegExp.prototype.test] by derivatives. *)
Module Regex.

Inductive re : Type :=
| Void : re
| Eps : re
| Chr : (ascii -> bool) -> re
| Cat : re -> re -> re
| Alt : re -> re -> re
| Star : re -> re.

(** [\d] *)
Definition digit : re := Chr JS.isDigit.

(** [.] *)
Definition dot : re := Chr (fun c => negb (JS.isLineTerminator c)).

(** A literal under the [i] flag: characters are compared after
    canonicalization to upper case. *)
Fixpoint literalI (s : string) : re :=
  match s with
  | EmptyString => Eps
  | String k s' =>
      Cat (Chr (fun c => Ascii.eqb (JS.upperChar c) (JS.upperChar k))) (literalI s')
  end.

(** [r+] *)
Definition plus (r : re) : re := Cat r (Star r).

(** [r{n,}] *)
Fixpoint atLeast (n : nat) (r : re) : re :=
  match n with
  | O => Star r
  | S n' => Cat r (atLeast n' r)
  end.

Fixpoint nullable (r : re) : bool :=
  match r with
  | Void => false
  | Eps => true
  | Chr _ => false
  | Cat r1 r2 => nullable r1 && nullable r2
  | Alt r1 r2 => nullable r1 || nullable r2
  | Star _ => true
  end.

Fixpoint deriv (c : ascii) (r : re) : re :=
  match r with
  | Void => Void
  | Eps => Void
  | Chr p => if p c then Eps else Void
  | Cat r1 r2 =>
      if nullable r1 then Alt (Cat (deriv c r1) r2) (deriv c r2)
      else Cat (deriv c r1) r2
  | Alt r1 r2 => Alt (deriv c r1) (deriv c r2)
  | Star r1 => Cat (deriv c r1) (Star r1)
  end.

(** Some prefix of [s] is matched by [r]. *)
Fixpoint matchesPrefix (r : re) (s : string) : bool :=
  nullable r ||
  match s with
  | EmptyString => false
  | String c s' => matchesPrefix (deriv c r) s'
  end.

(** [r.test(s)] without the [g] and [y] flags: a match starts at some
    index of [s]. *)
Fixpoint test (r : re) (s : string) : bool :=
  matchesPrefix r s ||
  match s with
  | EmptyString => false
  | String _ s' => test r s'
  end.

(** The strings of [r]. *)
Inductive matches : re -> string -> Prop :=
| m_eps : matches Eps EmptyString
| m_chr p c : p c = true -> matches (Chr p) (String c EmptyString)
| m_cat r1 r2 s1 s2 : matches r1 s1 -> matches r2 s2 -> matches (Cat r1 r2) (s1 ++ s2)
| m_alt_l r1 r2 s : matches r1 s -> matches (Alt r1 r2) s
| m_alt_r r1 r2 s : matches r2 s -> matches (Alt r1 r2) s
| m_star_nil r : matches (Star r) EmptyString
| m_star_cons r s1 s2 :
    matches r s1 -> matches (Star r) s2 -> matches (Star r) (s1 ++ s2).

End Regex.

(** [/bought.*\d+/i] and its three siblings. *)
Definition keywordPattern (keyword : string) : Regex.re :=
  Regex.Cat (Regex.literalI keyword)
    (Regex.Cat (Regex.Star Regex.dot) (Regex.plus Regex.digit)).

Definition sensitiveKeywords : list string := ["bought"; "sold"; "price"; "margin"].

Definition sensitivePatterns : list Regex.re :=
  Regex.atLeast 5 Regex.digit :: map keywordPattern sensitiveKeywords.

Definition containsSensitiveData (text : string) : bool :=
  existsb (fun pattern => Regex.test pattern text) sensitivePatterns.

(** * Definitions used in the statements *)

(** ** Strings and lists *)

Fixpoint allStr (p : ascii -> bool) (s : string) : bool :=
  match s with
  | EmptyString => true
  | String c s' => p c && allStr p s'
  end.

Definition newline : string := String JS.LF "".

(** [sel] is a subsequence of [l]: some elements of [l], in order. *)
Inductive subseq {A : Type} : list A -> list A -> Prop :=
| subseq_nil : subseq [] []
| subseq_skip x sel l : subseq sel l -> subseq sel (x :: l)
| subseq_take x sel l : subseq sel l -> subseq (x :: sel) (x :: l).

(** The comparator [(a, b) => key(b) - key(a)] of both sorts. *)
Definition descending {A : Type} (key : A -> Z) (a b : A) : Z := key b - key a.

(** All character codes, and the agreement of the two case foldings on
    a pair of them. *)
Definition allCodes : list N := map N.of_nat (seq 0 256).

Definition foldingsAgree (a b : N) : bool :=
  Bool.eqb
    (Ascii.eqb (JS.upperChar (ascii_of_N a)) (JS.upperChar (ascii_of_N b)))
    (Ascii.eqb (JS.lowerChar (ascii_of_N a)) (JS.lowerChar (ascii_of_N b))).

(** The numbers [toFixed] writes in fixed notation: the finite ones
    below [1e21] in magnitude. *)
Definition isFixedRange (x : float) : bool :=
  match Prim2SF x with
  | S754_zero _ => true
  | S754_finite _ m e =>
      negb (10 ^ 21 * (if 0 <=? e then 1 else 2 ^ (- e))
            <=? (if 0 <=? e then Zpos m * 2 ^ e else Zpos m))
  | _ => false
  end.

(** ** Ledgers, records and targets of the examples *)

Definition marutiSwift : TargetVehicle := mkTarget "Maruti" "Swift".


Definition swift2018 : HistoricalRecord :=
  mkRecord (Some "Maruti") (Some "Swift") None (Some "2018")
    (Some 450000%float) (Some 520000%float) None.

Definition swift2019 : HistoricalRecord :=
  mkRecord (Some "Maruti") (Some "Swift") None (Some "2019")
    (Some 400000%float) (Some 460000%float) None.

Definition swiftSoldZero : HistoricalRecord :=
  mkRecord (Some "Maruti") (Some "Swift") None (Some "2020")
    (Some 450000%float) (Some 0%float) None.

(** The ledger of the round-trip scenario. *)
Definition ledger1 : string :=
  "Brand,Model,Year,BoughtPrice,SoldPrice"
  ++ String JS.LF "Maruti,Swift,2018,450000,520000"
  ++ String JS.LF "Maruti,Swift,2019,400000,460000".




(** ** The scorer *)

(** Case-insensitive equality of a record field with a target field. *)
Definition exactBrand (r : HistoricalRecord) (t : TargetVehicle) : bool :=
  JS.lowerEq (brand r) (target_brand t).

Definition exactModel (r : HistoricalRecord) (t : TargetVehicle) : bool :=
  JS.lowerEq (model r) (target_model t).

(** Both models are non-empty and one contains the other, ignoring case. *)
Definition partialModel (r : HistoricalRecord) (t : TargetVehicle) : bool :=
  match model r with
  | Some m =>
      JS.truthyStr m && JS.truthyStr (target_model t)
      && (JS.includes (JS.toLowerCase m) (JS.toLowerCase (target_model t))
          || JS.includes (JS.toLowerCase (target_model t)) (JS.toLowerCase m))
  | None => false
  end.


(** ** The parser *)






(** ** The aggregator *)

(** The records of one group, and the group keys in the order in which
    they are first seen. *)
Definition membersOf (key : string) (records : list HistoricalRecord)
    : list HistoricalRecord :=
  filter (fun r => (groupKey r =? key)%string) records.

Definition firstSeenKeys (records : list HistoricalRecord) : list string :=
  JS.uniq (map groupKey records).

(** The groups before sorting, in first-seen order of their keys. *)
Definition unsortedGroups (records : list HistoricalRecord) : list AggregatedData :=
  flat_map aggregateGroup (groupRecords records).

(** A price as the specification reads it: present when the field holds
    a number, the parse-failure sentinel [NaN] counting as absent. *)
Definition pricePresent (o : option float) : bool :=
  match o with Some x => negb (is_nan x) | None => false end.

(** Eligibility in the words of the specification: both prices present
    and the bought price positive. *)
Definition specEligible (r : HistoricalRecord) : bool :=
  pricePresent (boughtPrice r) && pricePresent (soldPrice r)
  && PrimFloat.ltb 0 (numberOf (boughtPrice r)).

(** A price that is present but is [0], [-0] or [NaN]. *)
Definition falsyPresent (o : option float) : bool :=
  match o with Some x => is_zero x || is_nan x | None => false end.

(** The record with every such price made absent. *)
Definition erasePrice (o : option float) : option float :=
  if falsyPresent o then None else o.

Definition eraseFalsy (r : HistoricalRecord) : HistoricalRecord :=
  mkRecord (brand r) (model r) (variant r) (year r)
    (erasePrice (boughtPrice r)) (erasePrice (soldPrice r)) (date r).

(** ** The composer *)



(** ** The sensitivity checker *)



(** The same, with no line terminator between the keyword and the
    digit. *)
Definition keywordBeforeDigitOnLine (keyword text : string) : Prop :=
  exists pre k mid d post,
    text = pre ++ k ++ mid ++ String d post
    /\ JS.toLowerCase k = keyword /\ JS.isDigit d = true
    /\ allStr (fun c => negb (JS.isLineTerminator c)) mid = true.

(** * The other modules *)

(** ** The cache key of [utils/cacheManager.ts] *)

Module Cache.

Record CarDetails := mkCar {
  car_brand : string;
  car_model : string;
  car_year : string;
  car_kmDriven : string;
  car_fuel : string
}.

Definition CACHE_PREFIX : string := "valuation_cache_".

Definition hexValue (c : ascii) : option Z :=
  if JS.isDigit c then Some (JS.digitVal c)
  else if JS.between 97 102 c then Some (Z.of_N (JS.code c) - 87)
  else if JS.between 65 70 c then Some (Z.of_N (JS.code c) - 55)
  else None.

(** The longest prefix of hexadecimal digits, as their values. *)
Fixpoint takeHexDigits (s : string) : list Z :=
  match s with
  | String c s' =>
      match hexValue c with
      | Some v => v :: takeHexDigits s'
      | None => []
      end
  | EmptyString => []
  end.

Definition hexDigitsValue (ds : list Z) : Z :=
  fold_left (fun a d => 16 * a + d) ds 0.

(** [parseInt(s)] without a radix: leading white space and a sign are
    skipped, [0x] selects base 16, and the longest prefix of digits is
    read; [None] is NaN.  The integer itself is kept: the number it
    rounds to compares with the bucket limits, which are exact, as the
    integer does. *)
Definition parseInt (s : string) : option Z :=
  let (neg, s0) := JS.takeSign (JS.trimStart s) in
  let sign := if neg then (-1) else 1 in
  match s0 with
  | String "0" (String x rest) =>
      if Ascii.eqb (JS.lowerChar x) "x" then
        match takeHexDigits rest with
        | [] => None
        | ds => Some (sign * hexDigitsValue ds)
        end
      else Some (sign * JS.digitsValue (fst (JS.takeDigits s0)))
  | _ =>
      match fst (JS.takeDigits s0) with
      | [] => None
      | ds => Some (sign * JS.digitsValue ds)
      end
  end.

(** The chain of comparisons on [km]; every comparison with NaN is
    false. *)
Definition kmRangeOf (km : option Z) : string :=
  match km with
  | Some km =>
      if km <? 20000 then "0-20k"
      else if km <? 40000 then "20-40k"
      else if km <? 60000 then "40-60k"
      else if km <? 80000 then "60-80k"
      else if km <? 100000 then "80-100k"
      else "100k+"
  | None => "100k+"
  end.

(** [s.replace(/\s+/g, '_')]: every maximal run of white space becomes
    one underscore; [inRun] tells that the previous character was white
    space. *)
Fixpoint replaceRuns (inRun : bool) (s : string) : string :=
  match s with
  | EmptyString => EmptyString
  | String c s' =>
      if JS.isWhiteSpace c then
        if inRun then replaceRuns true s' else String "_" (replaceRuns true s')
      else String c (replaceRuns false s')
  end.

Definition generateCacheKey (carDetails : CarDetails) : string :=
  let km := parseInt (car_kmDriven carDetails) in
  let kmRange := kmRangeOf km in
  let key := car_brand carDetails ++ "_" ++ car_model carDetails ++ "_"
             ++ car_year carDetails ++ "_" ++ kmRange ++ "_" ++ car_fuel carDetails in
  CACHE_PREFIX ++ replaceRuns false (JS.toLowerCase key).



End Cache.

(** ** The compact sanitizer

    The revision of the sanitizer that answers with one line of text
    built from the aggregated groups alone; its records have no variant
    and no date. *)

Module Compact.

Definition assignCell (header : string) (value : option string)
    (record : HistoricalRecord) : HistoricalRecord :=
  let record :=
    if JS.includes header "brand" then
      mkRecord value (model record) (variant record) (year record)
        (boughtPrice record) (soldPrice record) (date record)
    else record in
  let record :=
    if JS.includes header "model" then
      mkRecord (brand record) value (variant record) (year record)
        (boughtPrice record) (soldPrice record) (date record)
    else record in
  let record :=
    if JS.includes header "year" then
      mkRecord (brand record) (model record) (variant record) value
        (boughtPrice record) (soldPrice record) (date record)
    else record in
  let record :=
    if JS.includes header "bought" || JS.includes header "purchase" then
      mkRecord (brand record) (model record) (variant record) (year record)
        (Some (JS.parseFloat value)) (soldPrice record) (date record)
    else record in
  let record :=
    if JS.includes header "sold" || JS.includes header "sale" then
      mkRecord (brand record) (model record) (variant record) (year record)
        (boughtPrice record) (Some (JS.parseFloat value)) (date record)
    else record in
  record.

Fixpoint assignCells (headers : list string) (index : nat) (values : list string)
    (record : HistoricalRecord) : HistoricalRecord :=
  match headers with
  | [] => record
  | header :: rest =>
      assignCells rest (S index) values
        (assignCell header (nth_error values index) record)
  end.

Definition parseLine (headers : list string) (line : string) : HistoricalRecord :=
  let values := map JS.trim (JS.split JS.comma line) in
  assignCells headers 0 values emptyRecord.

Definition parseCSV (csvData : string) : list HistoricalRecord :=
  if negb (JS.truthyStr (JS.trim csvData)) then []
  else
    match JS.split JS.LF (JS.trim csvData) with
    | [] | [_] => []
    | header :: rows =>
        let headers := map JS.trim (JS.split JS.comma (JS.toLowerCase header)) in
        map (parseLine headers) rows
    end.

Definition databaseLine (allRecords : list HistoricalRecord) : string :=
  "Database: " ++ JS.showNat (List.length allRecords) ++ " total transactions.".

Definition noRelevantLine (targetCar : TargetVehicle) : string :=
  "No relevant matches found for " ++ target_brand targetCar ++ " "
    ++ target_model targetCar ++ ".".

(** The predicate of [aggregated.find]. *)
Definition matchesTarget (targetCar : TargetVehicle) (a : AggregatedData) : bool :=
  JS.includes (JS.toLowerCase (brandModel a)) (JS.toLowerCase (target_brand targetCar))
  && JS.includes (JS.toLowerCase (brandModel a)) (JS.toLowerCase (target_model targetCar)).

Definition groupLine (a : AggregatedData) : string :=
  brandModel a ++ ": " ++ JS.showNat (count a) ++ " transactions, "
    ++ JS.toFixed (avgMargin a) 1 ++ "% avg margin.".

Definition profitLine (avgMargin : float) : string :=
  if PrimFloat.ltb 15 avgMargin then "Highly profitable model."
  else if PrimFloat.ltb 8 avgMargin then "Moderate profitability."
  else "Lower margin model.".

Definition yearsLine (years : list string) : list string :=
  match years with
  | [] => []
  | _ => ["Years: " ++ JS.join ", " (JS.slice0 years 5) ++ "."]
  end.

Definition brandLine (targetCar : TargetVehicle) (brandMatches : list AggregatedData)
    : string :=
  target_brand targetCar ++ ": " ++ JS.showNat (totalCount brandMatches)
    ++ " transactions across " ++ JS.showNat (List.length brandMatches) ++ " models.".

Definition modelLine (a : AggregatedData) : string :=
  brandModel a ++ ": " ++ JS.showNat (count a) ++ " txns, "
    ++ JS.toFixed (avgMargin a) 1 ++ "% margin.".

Definition noBrandLine (targetCar : TargetVehicle) : string :=
  "No " ++ target_brand targetCar ++ " transactions found.".

(** The [insights] array at the [return] that is reached, after the two
    early returns on the input. *)
Definition summarize (allRecords : list HistoricalRecord) (targetCar : TargetVehicle)
    : list string :=
  let relevantRecords := smartFilter allRecords targetCar 50 in
  let aggregated := aggregateData relevantRecords in
  match aggregated with
  | [] => [databaseLine allRecords; noRelevantLine targetCar]
  | _ :: _ =>
      match find (matchesTarget targetCar) aggregated with
      | Some exactMatch =>
          (databaseLine allRecords :: groupLine exactMatch
             :: profitLine (avgMargin exactMatch) :: yearsLine (years exactMatch))%list
      | None =>
          let brandMatches := brandMatchesOf targetCar aggregated in
          match brandMatches with
          | _ :: _ =>
              (databaseLine allRecords :: brandLine targetCar brandMatches
                 :: map modelLine (JS.slice0 brandMatches 2))%list
          | [] => [databaseLine allRecords; noBrandLine targetCar]
          end
      end
  end.

Definition sanitizeHistoricalData (csvData : string) (targetCar : TargetVehicle)
    : string :=
  if negb (JS.truthyStr csvData) || negb (JS.truthyStr (JS.trim csvData)) then
    "No historical data available."
  else
    let allRecords := parseCSV csvData in
    match allRecords with
    | [] => "No valid historical data found."
    | _ :: _ => JS.join " " (summarize allRecords targetCar)
    end.

End Compact.

(** ** The plain sanitizer

    The revision of [utils/dataSanitizer.ts] without selector and
    aggregator: the parser is that of the compact sanitizer, word for
    word, and the answer is built from the records that are similar to
    the target. *)

Module Plain.

Definition parseCSV : string -> list HistoricalRecord := Compact.parseCSV.

(** [r.model?.toLowerCase() || ''] *)
Definition lowerModel (r : HistoricalRecord) : string :=
  match model r with
  | Some m => if JS.truthyStr (JS.toLowerCase m) then JS.toLowerCase m else ""
  | None => ""
  end.

(** The predicate of the [similarCars] filter; the optional chain on an
    absent model is [undefined], which is falsy. *)
Definition similar (targetCar : TargetVehicle) (r : HistoricalRecord) : bool :=
  JS.lowerEq (brand r) (target_brand targetCar)
  || match model r with
     | Some m => JS.includes (JS.toLowerCase m) (JS.toLowerCase (target_model targetCar))
     | None => false
     end
  || JS.includes (JS.toLowerCase (target_model targetCar)) (lowerModel r).

Definition isSameBrand (targetCar : TargetVehicle) (r : HistoricalRecord) : bool :=
  JS.lowerEq (brand r) (target_brand targetCar).

Definition databaseLine (records : list HistoricalRecord) : string :=
  "Historical database contains " ++ JS.showNat (List.length records)
    ++ " transaction records.".

Definition foundLine (targetCar : TargetVehicle) (similarCars : list HistoricalRecord)
    : string :=
  "Found " ++ JS.showNat (List.length similarCars) ++ " similar "
    ++ target_brand targetCar ++ " " ++ target_model targetCar
    ++ " transactions in your history.".

Definition marginLine (avgMargin : float) : string :=
  "Your historical margin on similar models averages " ++ JS.toFixed avgMargin 1 ++ "%.".

Definition profitLine (avgMargin : float) : string :=
  if PrimFloat.ltb 15 avgMargin then
    "This model has historically been highly profitable for your business."
  else if PrimFloat.ltb 8 avgMargin then
    "This model has shown moderate profitability in your past transactions."
  else "This model has shown lower margins in your historical data.".

Definition marginLines (marginsPercent : list float) : list string :=
  match marginsPercent with
  | [] => []
  | _ :: _ =>
      let avgMargin := average marginsPercent in
      [marginLine avgMargin; profitLine avgMargin]
  end.

(** [similarCars.map(r => r.year).filter(Boolean)] *)
Definition presentYears (similarCars : list HistoricalRecord) : list string :=
  flat_map (fun r => match year r with
                     | Some y => if JS.truthyStr y then [y] else []
                     | None => []
                     end) similarCars.

Definition yearsLine (years : list string) : list string :=
  match years with
  | [] => []
  | _ :: _ => ["You have experience with model years: " ++ JS.join ", " (JS.uniq years)
                 ++ "."]
  end.

Definition noDirectLine (targetCar : TargetVehicle) : string :=
  "No direct matches for " ++ target_brand targetCar ++ " " ++ target_model targetCar
    ++ " in your transaction history.".

Definition sameBrandLines (targetCar : TargetVehicle) (sameBrand : list HistoricalRecord)
    : list string :=
  match sameBrand with
  | [] => []
  | _ :: _ => ["You have " ++ JS.showNat (List.length sameBrand) ++ " transactions with "
                 ++ target_brand targetCar ++ " vehicles."]
  end.

(** The [insights] array after the two early returns. *)
Definition summarize (records : list HistoricalRecord) (targetCar : TargetVehicle)
    : list string :=
  let similarCars := filter (similar targetCar) records in
  match similarCars with
  | _ :: _ =>
      let marginsPercent := map marginOf (filter marginEligible similarCars) in
      let years := presentYears similarCars in
      (databaseLine records :: foundLine targetCar similarCars
         :: marginLines marginsPercent ++ yearsLine years)%list
  | [] =>
      let sameBrand := filter (isSameBrand targetCar) records in
      (databaseLine records :: noDirectLine targetCar
         :: sameBrandLines targetCar sameBrand)%list
  end.

Definition sanitizeHistoricalData (csvData : string) (targetCar : TargetVehicle)
    : string :=
  if negb (JS.truthyStr csvData) || negb (JS.truthyStr (JS.trim csvData)) then
    "No historical data available."
  else
    let records := parseCSV csvData in
    match records with
    | [] => "No valid historical data found."
    | _ :: _ => JS.join " " (summarize records targetCar)
    end.

End Plain.

(** ** The client-side encryption utilities

    A string is here the sequence of its UTF-16 code units, which is
    what [split('')], [charCodeAt] and [String.fromCharCode] work on.
    [btoa] throws on a code unit above 255 and [atob] on anything that
    is not base64; both are caught by the caller, so they return an
    option. *)

Module Secure.

Local Open Scope list_scope.
Local Open Scope N_scope.

Definition ustring := list N.

Definition ofString (s : string) : ustring := map N_of_ascii (list_ascii_of_string s).

Definition ENCRYPTION_KEY : ustring := ofString "autovaluate-secure-2024".

Definition keyCodeAt (i : nat) : N :=
  nth (i mod List.length ENCRYPTION_KEY) ENCRYPTION_KEY 0.

Definition fromCharCode (n : N) : N := n mod 65536.

Fixpoint xorFrom (i : nat) (data : ustring) : ustring :=
  match data with
  | [] => []
  | char :: rest => fromCharCode (N.lxor char (keyCodeAt i)) :: xorFrom (S i) rest
  end.

Definition base64Char (v : N) : N :=
  if v <? 26 then 65 + v
  else if v <? 52 then 97 + (v - 26)
  else if v <? 62 then 48 + (v - 52)
  else if v =? 62 then 43 else 47.

Definition pad : N := 61.

Fixpoint encodeBytes (l : list N) : list N :=
  match l with
  | a :: b :: c :: rest =>
      base64Char (a / 4) :: base64Char ((a mod 4) * 16 + b / 16)
        :: base64Char ((b mod 16) * 4 + c / 64) :: base64Char (c mod 64)
        :: encodeBytes rest
  | [a; b] =>
      [base64Char (a / 4); base64Char ((a mod 4) * 16 + b / 16);
       base64Char ((b mod 16) * 4); pad]
  | [a] => [base64Char (a / 4); base64Char ((a mod 4) * 16); pad; pad]
  | [] => []
  end.

Definition btoa (data : ustring) : option ustring :=
  if forallb (fun c => c <? 256) data then Some (encodeBytes data) else None.

Definition isAsciiWhitespace (c : N) : bool :=
  (c =? 9) || (c =? 10) || (c =? 12) || (c =? 13) || (c =? 32).

Definition base64Value (c : N) : option N :=
  if (65 <=? c) && (c <=? 90) then Some (c - 65)
  else if (97 <=? c) && (c <=? 122) then Some (c - 71)
  else if (48 <=? c) && (c <=? 57) then Some (c + 4)
  else if c =? 43 then Some 62
  else if c =? 47 then Some 63
  else None.

Definition isPadding (l : list N) : bool :=
  match l with
  | [a] => a =? pad
  | [a; b] => (a =? pad) && (b =? pad)
  | _ => false
  end.

Fixpoint stripPadding (l : list N) : list N :=
  match l with
  | [] => []
  | c :: rest => if isPadding l then [] else c :: stripPadding rest
  end.

Fixpoint base64Values (l : list N) : option (list N) :=
  match l with
  | [] => Some []
  | c :: rest =>
      match base64Value c, base64Values rest with
      | Some v, Some vs => Some (v :: vs)
      | _, _ => None
      end
  end.

Fixpoint decodeValues (l : list N) : list N :=
  match l with
  | a :: b :: c :: d :: rest =>
      a * 4 + b / 16 :: (b mod 16) * 16 + c / 4 :: (c mod 4) * 64 + d
        :: decodeValues rest
  | [a; b; c] => [a * 4 + b / 16; (b mod 16) * 16 + c / 4]
  | [a; b] => [a * 4 + b / 16]
  | _ => []
  end.

Definition atob (data : ustring) : option ustring :=
  let d := filter (fun c => negb (isAsciiWhitespace c)) data in
  let d := if (List.length d mod 4 =? 0)%nat then stripPadding d else d in
  if (List.length d mod 4 =? 1)%nat then None
  else option_map decodeValues (base64Values d).

Definition encryptData (data : ustring) : ustring :=
  match data with
  | [] => []
  | _ => match btoa (xorFrom 0 data) with
         | Some encoded => encoded
         | None => data
         end
  end.

Definition decryptData (encryptedData : ustring) : ustring :=
  match encryptedData with
  | [] => []
  | _ => match atob encryptedData with
         | Some decoded => xorFrom 0 decoded
         | None => []
         end
  end.

(** [sessionStorage]: the items, most recently set first; the quota of
    the store is not modelled. *)
Definition Storage := list (ustring * ustring).

Definition ustring_eqb (a b : ustring) : bool :=
  if list_eq_dec N.eq_dec a b then true else false.

Fixpoint getItem (key : ustring) (storage : Storage) : option ustring :=
  match storage with
  | [] => None
  | (k, v) :: rest => if ustring_eqb k key then Some v else getItem key rest
  end.

Definition removeItem (key : ustring) (storage : Storage) : Storage :=
  filter (fun item => negb (ustring_eqb (fst item) key)) storage.

Definition setItem (key value : ustring) (storage : Storage) : Storage :=
  (key, value) :: removeItem key storage.

Definition secureStore (key data : ustring) (storage : Storage) : Storage :=
  let encrypted := encryptData data in
  setItem key encrypted storage.

Definition secureRetrieve (key : ustring) (storage : Storage) : ustring :=
  match getItem key storage with
  | None | Some [] => []
  | Some encrypted => decryptData encrypted
  end.

Definition clearSecureData (storage : Storage) : Storage := [].

End Secure.

(** * Further definitions used in the statements *)

(** ** The parser's header *)

(** The header cells [parseCSV] works with: the first line of the
    trimmed text, lower-cased, split on commas, each cell trimmed. *)
Definition headersOf (csvData : string) : list string :=
  map JS.trim
    (JS.split JS.comma
       (JS.toLowerCase (hd EmptyString (JS.split JS.LF (JS.trim csvData))))).

(** Some header cell contains one of the tokens. *)
Definition hasColumn (tokens headers : list string) : bool :=
  existsb (fun header => existsb (JS.includes header) tokens) headers.

Definition isSome {A : Type} (o : option A) : bool :=
  match o with Some _ => true | None => false end.

(** The assignments of one [forEach] step, each under its test. *)
Definition setBrand (value : option string) (r : HistoricalRecord) : HistoricalRecord :=
  mkRecord value (model r) (variant r) (year r) (boughtPrice r) (soldPrice r) (date r).

Definition setModel (value : option string) (r : HistoricalRecord) : HistoricalRecord :=
  mkRecord (brand r) value (variant r) (year r) (boughtPrice r) (soldPrice r) (date r).

Definition setVariant (value : option string) (r : HistoricalRecord) : HistoricalRecord :=
  mkRecord (brand r) (model r) value (year r) (boughtPrice r) (soldPrice r) (date r).

Definition setYear (value : option string) (r : HistoricalRecord) : HistoricalRecord :=
  mkRecord (brand r) (model r) (variant r) value (boughtPrice r) (soldPrice r) (date r).

Definition setDate (value : option string) (r : HistoricalRecord) : HistoricalRecord :=
  mkRecord (brand r) (model r) (variant r) (year r) (boughtPrice r) (soldPrice r) value.

Definition setBought (value : option string) (r : HistoricalRecord) : HistoricalRecord :=
  mkRecord (brand r) (model r) (variant r) (year r)
    (Some (JS.parseFloat value)) (soldPrice r) (date r).

Definition setSold (value : option string) (r : HistoricalRecord) : HistoricalRecord :=
  mkRecord (brand r) (model r) (variant r) (year r)
    (boughtPrice r) (Some (JS.parseFloat value)) (date r).

Definition when (b : bool) (f : HistoricalRecord -> HistoricalRecord)
    (r : HistoricalRecord) : HistoricalRecord :=
  if b then f r else r.

(** ** Relevance *)

(** A record the selector keeps: equal brand, equal model or one model
    inside the other, ignoring case. *)
Definition isRelevant (t : TargetVehicle) (r : HistoricalRecord) : bool :=
  exactBrand r t || exactModel r t || partialModel r t.

(** The score of every exact match of a target. *)
Definition exactScore (t : TargetVehicle) : Z :=
  if JS.truthyStr (target_model t) then 225 else 150.

(** ** The cache key *)

(** What may follow the digits of a mileage: nothing, or a character
    that is neither a digit nor the [x] of a hexadecimal prefix. *)
Definition endsNumber (rest : string) : bool :=
  match rest with
  | EmptyString => true
  | String c _ => negb (JS.isDigit c) && negb (Ascii.eqb (JS.lowerChar c) "x")
  end.


Definition digitsOf (ds : string) : list Z := map JS.digitVal (list_ascii_of_string ds).



(** ** The other sanitizers *)

(** The record as the five-field parser builds it: without variant and
    date. *)
Definition forget (r : HistoricalRecord) : HistoricalRecord :=
  mkRecord (brand r) (model r) None (year r) (boughtPrice r) (soldPrice r) None.

Definition swiftDated : HistoricalRecord :=
  mkRecord (Some "Maruti") (Some "Swift") (Some "VXI") (Some "2018")
    (Some 450000%float) (Some 520000%float) (Some "2023-01-15").

Definition hondaCivic : HistoricalRecord :=
  mkRecord (Some "Honda") (Some "Civic") None (Some "2018")
    (Some 450000%float) (Some 520000%float) None.

(** A row of a ledger that has no model column. *)
Definition marutiNoModel : HistoricalRecord :=
  mkRecord (Some "Maruti") None None (Some "2018")
    (Some 450000%float) (Some 520000%float) None.

Definition tataNexon : TargetVehicle := mkTarget "Tata" "Nexon".

(** * Properties *)

(** ** The built-ins on examples *)

Lemma parseFloat_examples :
  JS.parseFloat (Some "450000") = 450000%float
  /\ JS.parseFloat (Some "4.5") = 4.5%float
  /\ JS.parseFloat (Some "-1.5e3 INR") = (-1500)%float
  /\ JS.parseFloat (Some "0.1") = (1 / 10)%float
  /\ JS.parseFloat (Some ".5") = 0.5%float
  /\ JS.parseFloat (Some "9007199254740993") = 9007199254740992%float
  /\ JS.parseFloat (Some "1e400") = infinity
  /\ JS.parseFloat (Some "-0") = neg_zero
  /\ JS.parseFloat (Some "Rs 5") = nan
  /\ JS.parseFloat None = nan.
Proof. repeat split. Qed.

Lemma toFixed_examples :
  JS.toFixed 4.5 2 = "4.50"
  /\ JS.toFixed (1005 / 1000) 2 = "1.00"
  /\ JS.toFixed 2.5 0 = "3"
  /\ JS.toFixed (-2.5) 0 = "-3"
  /\ JS.toFixed (-1 / 1000) 2 = "-0.00"
  /\ JS.toFixed neg_zero 2 = "0.00"
  /\ JS.toFixed 123456789012345683968 2 = "123456789012345683968.00"
  /\ JS.toFixed (JS.parseFloat (Some "1e21")) 2 = "1e+21"
  /\ JS.toFixed (JS.parseFloat (Some "1.2345678e25")) 2 = "1.2345678e+25"
  /\ JS.toFixed (JS.parseFloat (Some "1e23")) 2 = "1e+23"
  /\ JS.toFixed nan 2 = "NaN"
  /\ JS.toFixed neg_infinity 2 = "-Infinity".
Proof. repeat split. Qed.

Lemma string_examples :
  JS.split JS.comma "a,,b," = ["a"; ""; "b"; ""]
  /\ JS.split JS.LF "" = [""]
  /\ JS.trim (String JS.LF "  a b  " ++ newline) = "a b"
  /\ JS.includes "swift dzire" "swift" = true
  /\ JS.includes "swift" "" = true
  /\ JS.includes "swift" "swift dzire" = false
  /\ JS.toLowerCase "Swift DZire 2" = "swift dzire 2"
  /\ JS.uniq ["2018"; "2019"; "2018"; "2020"; "2019"] = ["2018"; "2019"; "2020"]
  /\ JS.slice0 [1; 2; 3] 5 = [1; 2; 3]
  /\ JS.slice0 [1; 2; 3] (-1) = [1; 2]
  /\ JS.sortBy (fun a b => snd b - snd a) [("a", 1); ("b", 3); ("c", 1); ("d", 3)]
     = [("b", 3); ("d", 3); ("a", 1); ("c", 1)].
Proof. repeat split. Qed.

(** ** The relevance scorer *)

Lemma prefix_refl (s : string) : prefix s s = true.
Proof.
  induction s as [|c s IH]; simpl; [reflexivity|].
  destruct (ascii_dec c c) as [_|n]; [exact IH | now elim n].
Qed.

Lemma includes_refl (s : string) : JS.includes s s = true.
Proof. destruct s; simpl; [reflexivity|]. rewrite prefix_refl. destruct (ascii_dec a a); reflexivity || contradiction. Qed.

Lemma calculateRelevance_sum (r : HistoricalRecord) (t : TargetVehicle) :
  calculateRelevance r t =
    (if exactBrand r t then 50 else 0)
    + (if exactModel r t then 100 else 0)
    + (if partialModel r t then 75 else 0).
Proof.
  unfold calculateRelevance, exactBrand, exactModel, partialModel.
  destruct (JS.lowerEq (brand r) (target_brand t));
    destruct (JS.lowerEq (model r) (target_model t));
    destruct (model r) as [m|]; simpl; try reflexivity;
    destruct (JS.truthyStr m && JS.truthyStr (target_model t)); simpl; try reflexivity;
    destruct (JS.includes (JS.toLowerCase m) (JS.toLowerCase (target_model t))
              || JS.includes (JS.toLowerCase (target_model t)) (JS.toLowerCase m));
    reflexivity.
Qed.

Lemma calculateRelevance_nonneg (r : HistoricalRecord) (t : TargetVehicle) :
  0 <= calculateRelevance r t.
Proof.
  rewrite calculateRelevance_sum.
  destruct (exactBrand r t), (exactModel r t), (partialModel r t); lia.
Qed.

Lemma toLowerCase_truthy (s : string) :
  JS.truthyStr (JS.toLowerCase s) = JS.truthyStr s.
Proof. destruct s; reflexivity. Qed.

(** An exact match of non-empty models is also a substring match. *)
Lemma exactModel_partial (r : HistoricalRecord) (t : TargetVehicle) :
  exactModel r t = true -> JS.truthyOptStr (model r) = true -> partialModel r t = true.
Proof.
  unfold exactModel, partialModel, JS.lowerEq, JS.truthyOptStr.
  destruct (model r) as [m|]; [|discriminate].
  intros E T. apply String.eqb_eq in E.
  rewrite T, <- (toLowerCase_truthy (target_model t)), <- E, toLowerCase_truthy, T.
  now rewrite includes_refl.
Qed.




(** ** Stable sorting and slicing *)

Section StableSort.
Context {A : Type}.
Variable key : A -> Z.

Let cmp := descending key.

Lemma insertBy_perm (x : A) (l : list A) : Permutation (JS.insertBy cmp x l) (x :: l).
Proof.
  induction l as [|y l IH]; simpl; [constructor; constructor|].
  destruct (cmp x y <=? 0); [reflexivity|].
  rewrite IH. apply perm_swap.
Qed.

Lemma sortBy_perm (l : list A) : Permutation (JS.sortBy cmp l) l.
Proof.
  induction l as [|x l IH]; simpl; [constructor|].
  rewrite insertBy_perm. now constructor.
Qed.

Lemma insertBy_sorted (x : A) (l : list A) :
  StronglySorted (fun a b => key b <= key a) l ->
  StronglySorted (fun a b => key b <= key a) (JS.insertBy cmp x l).
Proof.
  induction 1 as [|y l Hs IH Hy]; simpl.
  - constructor; constructor.
  - unfold cmp at 1, descending. destruct (Z.leb_spec (key y - key x) 0) as [Hle|Hgt].
    + constructor; [constructor; assumption|].
      constructor; [lia|].
      rewrite Forall_forall in *. intros z Hz. specialize (Hy z Hz). lia.
    + constructor; [exact IH|].
      rewrite Forall_forall in *. intros z Hz.
      apply (Permutation_in _ (insertBy_perm x l)) in Hz.
      destruct Hz as [<-|Hz]; [lia|auto].
Qed.

Lemma sortBy_sorted (l : list A) :
  StronglySorted (fun a b => key b <= key a) (JS.sortBy cmp l).
Proof.
  induction l as [|x l IH]; simpl; [constructor|].
  now apply insertBy_sorted.
Qed.

(** Stability: the elements of one key keep their order. *)
Lemma insertBy_stable (v : Z) (x : A) (l : list A) :
  filter (fun a => key a =? v) (JS.insertBy cmp x l)
  = filter (fun a => key a =? v) (x :: l).
Proof.
  induction l as [|y l IH]; [reflexivity|].
  simpl JS.insertBy. unfold cmp at 1, descending.
  destruct (Z.leb_spec (key y - key x) 0) as [Hle|Hgt]; [reflexivity|].
  simpl in *. rewrite IH.
  destruct (Z.eqb_spec (key x) v), (Z.eqb_spec (key y) v); try reflexivity; lia.
Qed.

Lemma sortBy_stable (v : Z) (l : list A) :
  filter (fun a => key a =? v) (JS.sortBy cmp l) = filter (fun a => key a =? v) l.
Proof.
  induction l as [|x l IH]; [reflexivity|].
  simpl JS.sortBy. rewrite insertBy_stable. simpl. now rewrite IH.
Qed.
End StableSort.

Lemma subseq_refl {A : Type} (l : list A) : subseq l l.
Proof. induction l; constructor; assumption. Qed.

Lemma subseq_filter {A : Type} (p : A -> bool) (l : list A) : subseq (filter p l) l.
Proof.
  induction l as [|x l IH]; simpl; [constructor|].
  destruct (p x); constructor; assumption.
Qed.

Lemma subseq_nil_l {A : Type} (l : list A) : subseq [] l.
Proof. induction l; constructor; assumption. Qed.

Lemma subseq_firstn {A : Type} (n : nat) (l : list A) : subseq (firstn n l) l.
Proof.
  revert n; induction l as [|x l IH]; intros [|n]; simpl.
  - constructor.
  - constructor.
  - apply subseq_nil_l.
  - apply subseq_take, IH.
Qed.

Lemma subseq_trans {A : Type} (a b c : list A) :
  subseq a b -> subseq b c -> subseq a c.
Proof.
  intros Hab Hbc. revert a Hab.
  induction Hbc as [|x b c Hbc IH|x b c Hbc IH]; intros a Hab.
  - exact Hab.
  - apply subseq_skip. now apply IH.
  - inversion Hab; subst.
    + apply subseq_skip. now apply IH.
    + apply subseq_take. now apply IH.
Qed.

(** A subsequence of a permuted list is, up to permutation, a
    subsequence of the list. *)
Lemma subseq_perm {A : Type} (a b : list A) :
  Permutation a b ->
  forall a', subseq a' a -> exists b', subseq b' b /\ Permutation a' b'.
Proof.
  induction 1 as [|x a b Hp IH|x y l|a b c Hab IHab Hbc IHbc]; intros a' Hs.
  - exists a'. split; [exact Hs|reflexivity].
  - inversion Hs as [|? ? ? H1|? sel ? H1]; subst.
    + destruct (IH _ H1) as (b' & Hb & Hq). exists b'.
      split; [now apply subseq_skip|exact Hq].
    + destruct (IH _ H1) as (b' & Hb & Hq). exists (x :: b').
      split; [now apply subseq_take|now constructor].
  - inversion Hs as [|? ? ? H1|? sel ? H1]; subst.
    + inversion H1 as [|? ? ? H2|? sel ? H2]; subst.
      * exists a'. split; [now do 2 apply subseq_skip|reflexivity].
      * exists (x :: sel).
        split; [now apply subseq_take, subseq_skip|reflexivity].
    + inversion H1 as [|? ? ? H2|? sel' ? H2]; subst.
      * exists (y :: sel).
        split; [now apply subseq_skip, subseq_take|reflexivity].
      * exists (x :: y :: sel').
        split; [now do 2 apply subseq_take|apply perm_swap].
  - destruct (IHab _ Hs) as (b' & Hb & Hq).
    destruct (IHbc _ Hb) as (c' & Hc & Hr).
    exists c'. split; [exact Hc|]. now transitivity b'.
Qed.

Lemma slice0_firstn {A : Type} (l : list A) (e : Z) :
  0 <= e -> JS.slice0 l e = firstn (Z.to_nat e) l.
Proof.
  intros He. unfold JS.slice0.
  destruct (Z.ltb_spec e 0) as [|_]; [lia|].
  destruct (Z.le_ge_cases e (Z.of_nat (List.length l))) as [Hle|Hge].
  - now rewrite Z.min_l.
  - rewrite Z.min_r, Nat2Z.id by assumption.
    rewrite firstn_all. symmetry. apply firstn_all2. lia.
Qed.

(** ** The top-K selector *)

Section Scored.
Context {A : Type}.
Variable f : A -> Z.

Let pair (r : A) : A * Z := (r, f r).

Lemma insertBy_scored (x : A) (l : list A) :
  JS.insertBy (fun a b => snd b - snd a) (pair x) (map pair l)
  = map pair (JS.insertBy (descending f) x l).
Proof.
  induction l as [|y l IH]; [reflexivity|].
  simpl. unfold descending at 1.
  destruct (f y - f x <=? 0); [reflexivity|].
  simpl. now rewrite IH.
Qed.

Lemma sortBy_scored (l : list A) :
  JS.sortBy (fun a b => snd b - snd a) (map pair l)
  = map pair (JS.sortBy (descending f) l).
Proof.
  induction l as [|x l IH]; [reflexivity|].
  simpl. now rewrite IH, insertBy_scored.
Qed.

Lemma filter_scored (l : list A) :
  filter (fun item => 0 <? snd item) (map pair l)
  = map pair (filter (fun r => 0 <? f r) l).
Proof.
  induction l as [|x l IH]; [reflexivity|].
  simpl. destruct (0 <? f x); simpl; now rewrite IH.
Qed.

Lemma slice0_scored (l : list A) (e : Z) :
  map fst (JS.slice0 (map pair l) e) = JS.slice0 l e.
Proof.
  unfold JS.slice0. rewrite length_map, firstn_map, map_map.
  apply map_id.
Qed.
End Scored.

(** The selector without the intermediate [{record, score}] objects. *)
Lemma smartFilter_eq (records : list HistoricalRecord) (target : TargetVehicle)
    (maxRecords : Z) :
  smartFilter records target maxRecords
  = JS.slice0
      (JS.sortBy (descending (fun r => calculateRelevance r target))
         (filter (fun r => 0 <? calculateRelevance r target) records))
      maxRecords.
Proof.
  unfold smartFilter.
  rewrite (filter_scored (fun r => calculateRelevance r target)).
  rewrite (sortBy_scored (fun r => calculateRelevance r target)).
  apply slice0_scored.
Qed.

Lemma StronglySorted_firstn {A : Type} (R : A -> A -> Prop) (n : nat) (l : list A) :
  StronglySorted R l -> StronglySorted R (firstn n l).
Proof.
  intros H. revert n. induction H as [|x l Hs IH Hx]; intros [|n]; simpl;
    try constructor.
  - apply IH.
  - rewrite Forall_forall in *. intros y Hy. apply Hx.
    rewrite <- (firstn_skipn n l). apply in_or_app. now left.
Qed.

(** C6: for a bound [maxRecords >= 0], the selector returns a selection
    of the input records (a subsequence of the input, reordered), of
    length at most [maxRecords], without any record of score 0, in
    non-increasing order of score, and the selected records of one score
    are the first ones of that score in the input, in their input
    order. *)
Theorem smartFilter_spec (records : list HistoricalRecord) (target : TargetVehicle)
    (maxRecords : Z) :
  0 <= maxRecords ->
  let score := fun r => calculateRelevance r target in
  let selected := smartFilter records target maxRecords in
  (exists sel, subseq sel records /\ Permutation selected sel)
  /\ Z.of_nat (List.length selected) <= maxRecords
  /\ Forall (fun r => score r <> 0) selected
  /\ StronglySorted (fun a b => score b <= score a) selected
  /\ (forall v, exists rest,
        filter (fun r => score r =? v) (filter (fun r => negb (score r =? 0)) records)
        = (filter (fun r => score r =? v) selected ++ rest)%list).
Proof.
  intros Hk score selected.
  assert (Hsel : selected
                 = firstn (Z.to_nat maxRecords)
                     (JS.sortBy (descending score)
                        (filter (fun r => 0 <? score r) records))).
  { unfold selected. rewrite smartFilter_eq. now apply slice0_firstn. }
  set (kept := filter (fun r => 0 <? score r) records) in Hsel.
  set (sorted := JS.sortBy (descending score) kept) in Hsel.
  assert (Hperm : Permutation sorted kept) by apply sortBy_perm.
  repeat split.
  - destruct (subseq_perm _ _ Hperm selected) as (sel & Hs & Hp).
    { rewrite Hsel. apply subseq_firstn. }
    exists sel. split; [|exact Hp].
    eapply subseq_trans; [exact Hs|apply subseq_filter].
  - rewrite Hsel, length_firstn. lia.
  - rewrite Forall_forall. intros r Hr. rewrite Hsel in Hr.
    assert (Hin : In r kept).
    { apply (Permutation_in _ Hperm).
      rewrite <- (firstn_skipn (Z.to_nat maxRecords) sorted).
      apply in_or_app. now left. }
    apply filter_In in Hin. destruct Hin as [_ Hpos].
    apply Z.ltb_lt in Hpos. lia.
  - rewrite Hsel. apply StronglySorted_firstn, sortBy_sorted.
  - intros v. exists (filter (fun r => score r =? v) (skipn (Z.to_nat maxRecords) sorted)).
    rewrite Hsel, <- filter_app, firstn_skipn.
    unfold sorted. rewrite sortBy_stable. unfold kept.
    f_equal. apply filter_ext_in. intros r Hr.
    pose proof (calculateRelevance_nonneg r target) as Hin.
    fold (score r) in Hin.
    destruct (Z.ltb_spec 0 (score r)), (Z.eqb_spec (score r) 0); try reflexivity; lia.
Qed.

Lemma smartFilter_spec_witness :
  Z.of_nat (List.length (smartFilter [swift2018; emptyRecord; swift2018] marutiSwift 1)) <= 1.
Proof.
  apply (smartFilter_spec [swift2018; emptyRecord; swift2018] marutiSwift 1). lia.
Defined.

(** ** The ledger parser on inputs without a data row *)

























(** ** Regular expressions *)

Lemma append_nil_r (s : string) : s ++ "" = s.
Proof. induction s; simpl; congruence. Qed.

Lemma append_assoc (a b c : string) : (a ++ b) ++ c = a ++ b ++ c.
Proof. induction a; simpl; congruence. Qed.

Lemma append_nil_inv (a b : string) : a ++ b = "" -> a = "" /\ b = "".
Proof. destruct a; simpl; [tauto|discriminate]. Qed.

Lemma length_append (a b : string) :
  String.length (a ++ b) = (String.length a + String.length b)%nat.
Proof. induction a; simpl; congruence. Qed.

Lemma allStr_append (p : ascii -> bool) (a b : string) :
  allStr p (a ++ b) = allStr p a && allStr p b.
Proof. induction a; simpl; [reflexivity|]. now rewrite IHa, andb_assoc. Qed.

Module RegexFacts.
Import Regex.

Lemma nullable_matches (r : re) : nullable r = true <-> matches r "".
Proof.
  split.
  - induction r; simpl; intros H; try discriminate.
    + constructor.
    + apply andb_true_iff in H as [H1 H2].
      change "" with ("" ++ ""). constructor; auto.
    + apply orb_true_iff in H as [H|H]; [apply m_alt_l|apply m_alt_r]; auto.
    + constructor.
  - intros H. remember "" as s eqn:E.
    induction H; simpl; try reflexivity; try discriminate.
    + apply append_nil_inv in E as [-> ->]. now rewrite IHmatches1, IHmatches2.
    + now rewrite IHmatches.
    + rewrite IHmatches by assumption. apply orb_true_r.
Qed.

Lemma deriv_sound (c : ascii) (r : re) :
  forall s, matches (deriv c r) s -> matches r (String c s).
Proof.
  induction r; simpl; intros s H.
  - inversion H.
  - inversion H.
  - destruct (b c) eqn:Hb; inversion H; subst. now constructor.
  - destruct (nullable r1) eqn:Hn.
    + inversion H as [| | | ? ? ? H1 | ? ? ? H1 | |]; subst.
      * inversion H1; subst.
        change (String c (s1 ++ s2)) with (String c s1 ++ s2).
        constructor; auto.
      * change (String c s) with ("" ++ String c s).
        constructor; [now apply nullable_matches|auto].
    + inversion H; subst.
      change (String c (s1 ++ s2)) with (String c s1 ++ s2).
      constructor; auto.
  - inversion H; subst; [apply m_alt_l|apply m_alt_r]; auto.
  - inversion H; subst.
    change (String c (s1 ++ s2)) with (String c s1 ++ s2).
    constructor; auto.
Qed.

Lemma deriv_complete (c : ascii) (r : re) (s : string) :
  matches r (String c s) -> matches (deriv c r) s.
Proof.
  intros H. remember (String c s) as s0 eqn:E. revert s E.
  induction H as [|p c0 Hp|r1 r2 s1 s2 H1 IH1 H2 IH2|r1 r2 s0 H IH|r1 r2 s0 H IH
                 |r|r s1 s2 H1 IH1 H2 IH2]; intros s E; simpl.
  - discriminate.
  - injection E as -> <-. rewrite Hp. constructor.
  - destruct s1 as [|c1 s1]; simpl in E.
    + subst s2. apply nullable_matches in H1. rewrite H1.
      apply m_alt_r. now apply IH2.
    + injection E as -> <-.
      assert (matches (Cat (deriv c r1) r2) (s1 ++ s2)) by (constructor; auto).
      destruct (nullable r1); [now apply m_alt_l|assumption].
  - apply m_alt_l. auto.
  - apply m_alt_r. auto.
  - discriminate.
  - destruct s1 as [|c1 s1]; simpl in E.
    + now apply IH2.
    + injection E as -> <-. constructor; auto.
Qed.

Lemma matchesPrefix_spec (s : string) :
  forall r, matchesPrefix r s = true <-> exists m post, s = m ++ post /\ matches r m.
Proof.
  induction s as [|c s IH]; intros r; simpl.
  - rewrite orb_false_r, nullable_matches. split.
    + intros H. now exists "", "".
    + intros (m & post & E & H). symmetry in E.
      apply append_nil_inv in E as [-> _]. exact H.
  - rewrite orb_true_iff, nullable_matches, IH. split.
    + intros [H|(m & post & -> & H)].
      * now exists "", (String c s).
      * exists (String c m), post. split; [reflexivity|now apply deriv_sound].
    + intros (m & post & E & H). destruct m as [|c' m]; [now left|right].
      simpl in E. injection E as <- ->.
      exists m, post. split; [reflexivity|now apply deriv_complete].
Qed.

(** [test] finds a match exactly when some substring is matched. *)
Lemma test_spec (r : re) (s : string) :
  test r s = true <-> exists pre m post, s = pre ++ m ++ post /\ matches r m.
Proof.
  induction s as [|c s IH]; cbn [test].
  - rewrite orb_false_r, matchesPrefix_spec. split.
    + intros (m & post & E & H). now exists "", m, post.
    + intros (pre & m & post & E & H). symmetry in E.
      apply append_nil_inv in E as [-> E]. now exists m, post.
  - rewrite orb_true_iff, matchesPrefix_spec, IH. split.
    + intros [(m & post & E & H)|(pre & m & post & -> & H)].
      * now exists "", m, post.
      * now exists (String c pre), m, post.
    + intros (pre & m & post & E & H). destruct pre as [|c' pre].
      * left. now exists m, post.
      * right. simpl in E. injection E as <- ->. now exists pre, m, post.
Qed.

Lemma matches_cat (r1 r2 : re) (s : string) :
  matches (Cat r1 r2) s <-> exists s1 s2, s = s1 ++ s2 /\ matches r1 s1 /\ matches r2 s2.
Proof.
  split.
  - intros H. inversion H; subst. now exists s1, s2.
  - intros (s1 & s2 & -> & H1 & H2). now constructor.
Qed.

Lemma matches_chr (p : ascii -> bool) (s : string) :
  matches (Chr p) s <-> exists c, s = String c "" /\ p c = true.
Proof.
  split.
  - intros H. inversion H; subst. now exists c.
  - intros (c & -> & H). now constructor.
Qed.

Lemma matches_star_chr (p : ascii -> bool) (s : string) :
  matches (Star (Chr p)) s <-> allStr p s = true.
Proof.
  split.
  - intros H. remember (Star (Chr p)) as r eqn:E.
    induction H; try discriminate; [reflexivity|].
    injection E as ->. apply matches_chr in H as (c & -> & Hc). simpl.
    rewrite IHmatches2 by reflexivity. now rewrite Hc.
  - induction s as [|c s IH]; simpl; intros H; [constructor|].
    apply andb_true_iff in H as [Hc Hs].
    change (String c s) with (String c "" ++ s).
    constructor; [now constructor|auto].
Qed.


Lemma matches_plus_chr (p : ascii -> bool) (s : string) :
  matches (plus (Chr p)) s
  <-> exists c s', s = String c s' /\ p c = true /\ allStr p s' = true.
Proof.
  unfold plus. rewrite matches_cat. split.
  - intros (s1 & s2 & -> & H1 & H2).
    apply matches_chr in H1 as (c & -> & Hc). apply matches_star_chr in H2.
    now exists c, s2.
  - intros (c & s' & -> & Hc & Hs).
    exists (String c ""), s'. split; [reflexivity|].
    split; [now constructor|now apply matches_star_chr].
Qed.

Lemma matches_literalI (keyword : string) :
  forall s, matches (literalI keyword) s <-> JS.toUpperCase s = JS.toUpperCase keyword.
Proof.
  induction keyword as [|k keyword IH]; intros s; simpl.
  - split.
    + intros H. inversion H. reflexivity.
    + destruct s; [constructor|discriminate].
  - rewrite matches_cat. split.
    + intros (s1 & s2 & -> & H1 & H2).
      apply matches_chr in H1 as (c & -> & Hc). apply IH in H2.
      apply Ascii.eqb_eq in Hc. unfold JS.toUpperCase in *. simpl. congruence.
    + destruct s as [|c s]; [discriminate|]. unfold JS.toUpperCase in *. simpl. intros E.
      injection E as Hc Hs.
      exists (String c ""), s. split; [reflexivity|].
      split; [constructor; now apply Ascii.eqb_eq|now apply IH].
Qed.

End RegexFacts.

(** ** The sensitivity checker *)

Lemma code_in_allCodes (c : ascii) : In (N_of_ascii c) allCodes.
Proof.
  unfold allCodes. apply in_map_iff. exists (N.to_nat (N_of_ascii c)).
  split; [apply N2Nat.id|]. apply in_seq.
  pose proof (N_ascii_bounded c). lia.
Qed.

(** Comparing after upper-casing or after lower-casing is the same. *)
Lemma upper_lower_char (c k : ascii) :
  Ascii.eqb (JS.upperChar c) (JS.upperChar k)
  = Ascii.eqb (JS.lowerChar c) (JS.lowerChar k).
Proof.
  assert (H : forallb (fun a => forallb (foldingsAgree a) allCodes) allCodes = true)
    by (vm_compute; reflexivity).
  rewrite forallb_forall in H. specialize (H _ (code_in_allCodes c)).
  rewrite forallb_forall in H. specialize (H _ (code_in_allCodes k)).
  unfold foldingsAgree in H. rewrite !ascii_N_embedding in H.
  now apply Bool.eqb_prop in H.
Qed.

Lemma upper_lower_string (a : string) :
  forall b, JS.toUpperCase a = JS.toUpperCase b <-> JS.toLowerCase a = JS.toLowerCase b.
Proof.
  unfold JS.toUpperCase, JS.toLowerCase.
  induction a as [|c a IH]; intros [|k b]; simpl; try (split; congruence).
  pose proof (upper_lower_char c k) as Hck. specialize (IH b).
  split; intros E; injection E as Ec Es.
  - apply Ascii.eqb_eq in Ec. rewrite Hck in Ec. apply Ascii.eqb_eq in Ec.
    apply IH in Es. congruence.
  - apply Ascii.eqb_eq in Ec. rewrite <- Hck in Ec. apply Ascii.eqb_eq in Ec.
    apply IH in Es. congruence.
Qed.


Lemma test_keyword (keyword text : string) :
  JS.toLowerCase keyword = keyword ->
  Regex.test (keywordPattern keyword) text = true
  <-> keywordBeforeDigitOnLine keyword text.
Proof.
  intros Hlow. rewrite RegexFacts.test_spec.
  unfold keywordBeforeDigitOnLine, keywordPattern. split.
  - intros (pre & m & post & -> & H).
    apply RegexFacts.matches_cat in H as (k & rest & -> & Hk & H).
    apply RegexFacts.matches_cat in H as (mid & ds & -> & Hmid & Hds).
    apply RegexFacts.matches_literalI, upper_lower_string in Hk.
    apply RegexFacts.matches_star_chr in Hmid.
    apply RegexFacts.matches_plus_chr in Hds as (d & ds' & -> & Hd & _).
    exists pre, k, mid, d, (ds' ++ post).
    repeat split; try assumption; [|congruence].
    rewrite !append_assoc. reflexivity.
  - intros (pre & k & mid & d & post & -> & Hk & Hd & Hmid).
    exists pre, (k ++ mid ++ String d ""), post. split.
    + rewrite !append_assoc. reflexivity.
    + apply RegexFacts.matches_cat. exists k, (mid ++ String d "").
      split; [reflexivity|]. split.
      * apply RegexFacts.matches_literalI, upper_lower_string. congruence.
      * apply RegexFacts.matches_cat. exists mid, (String d "").
        split; [reflexivity|]. split.
        -- now apply RegexFacts.matches_star_chr.
        -- apply RegexFacts.matches_plus_chr. now exists d, "".
Qed.



(** ** The aggregator *)

Lemma uniq_In (x : string) (l : list string) : In x (JS.uniq l) <-> In x l.
Proof.
  induction l as [|y l IH]; simpl; [tauto|].
  rewrite filter_In, IH. destruct (String.eqb_spec x y) as [->|Hne]; simpl.
  - tauto.
  - split; [intros [->|[H _]]; tauto|intros [E|H]; [now left|right; tauto]].
Qed.

Lemma uniq_NoDup (l : list string) : NoDup (JS.uniq l).
Proof.
  induction l as [|y l IH]; simpl; constructor.
  - rewrite filter_In, String.eqb_refl. simpl. intros [_ H]. discriminate.
  - now apply NoDup_filter.
Qed.

Lemma uniq_snoc (x : string) (l : list string) :
  JS.uniq (l ++ [x]) = if in_dec string_dec x l then JS.uniq l else (JS.uniq l ++ [x])%list.
Proof.
  induction l as [|y l IH]; simpl; [reflexivity|].
  rewrite IH. destruct (string_dec y x) as [->|Hne].
  - destruct (in_dec string_dec x l); [reflexivity|].
    rewrite filter_app. simpl. rewrite String.eqb_refl. simpl.
    now rewrite app_nil_r.
  - destruct (in_dec string_dec x l); [reflexivity|].
    rewrite filter_app. simpl.
    destruct (String.eqb_spec x y) as [->|_]; [contradiction|reflexivity].
Qed.

Lemma membersOf_snoc (key : string) (rs : list HistoricalRecord) (r : HistoricalRecord) :
  membersOf key (rs ++ [r])
  = if string_dec (groupKey r) key then (membersOf key rs ++ [r])%list
    else membersOf key rs.
Proof.
  unfold membersOf. rewrite filter_app. simpl.
  destruct (string_dec (groupKey r) key) as [->|Hne].
  - now rewrite String.eqb_refl.
  - apply String.eqb_neq in Hne. rewrite Hne. apply app_nil_r.
Qed.

Lemma membersOf_absent (key : string) (rs : list HistoricalRecord) :
  ~ In key (map groupKey rs) -> membersOf key rs = [].
Proof.
  unfold membersOf. induction rs as [|x rs IH]; [reflexivity|]. simpl. intros Hn.
  destruct (String.eqb_spec (groupKey x) key) as [E|_]; [elim Hn; now left|].
  apply IH. tauto.
Qed.

Lemma addToGroup_members (rs : list HistoricalRecord) (r : HistoricalRecord)
    (keys : list string) :
  NoDup keys ->
  addToGroup (groupKey r) r (map (fun k => (k, membersOf k rs)) keys)
  = (map (fun k => (k, membersOf k (rs ++ [r]))) keys
     ++ if in_dec string_dec (groupKey r) keys then [] else [(groupKey r, [r])])%list.
Proof.
  induction 1 as [|k keys Hk Hnd IH]; [reflexivity|].
  cbn [map addToGroup]. rewrite membersOf_snoc.
  destruct (String.eqb_spec k (groupKey r)) as [E|Hne].
  - destruct (string_dec (groupKey r) k) as [_|n]; [|now elim n].
    destruct (in_dec string_dec (groupKey r) (k :: keys)) as [_|n];
      [|elim n; now left].
    rewrite app_nil_r. cbn [app]. f_equal.
    apply map_ext_in. intros k' Hk'. rewrite membersOf_snoc.
    destruct (string_dec (groupKey r) k') as [E'|]; [|reflexivity].
    elim Hk. congruence.
  - destruct (string_dec (groupKey r) k) as [E|_]; [now elim Hne|].
    rewrite IH. cbn [app]. f_equal. f_equal.
    destruct (in_dec string_dec (groupKey r) keys) as [i|n];
      destruct (in_dec string_dec (groupKey r) (k :: keys)) as [i'|n'];
      try reflexivity.
    + elim n'. now right.
    + destruct i' as [E|i']; [now elim Hne|contradiction].
Qed.

(** The [Map] holds, for each key in first-seen order, the records of
    that key in input order. *)
Lemma groupRecords_eq (records : list HistoricalRecord) :
  groupRecords records
  = map (fun k => (k, membersOf k records)) (firstSeenKeys records).
Proof.
  unfold groupRecords, firstSeenKeys.
  induction records as [|r rs IH] using rev_ind; [reflexivity|].
  rewrite fold_left_app. cbn [fold_left]. rewrite IH.
  rewrite addToGroup_members by apply uniq_NoDup.
  rewrite map_app. cbn [map]. rewrite uniq_snoc.
  destruct (in_dec string_dec (groupKey r) (map groupKey rs)) as [i|n];
    destruct (in_dec string_dec (groupKey r) (JS.uniq (map groupKey rs))) as [i'|n'].
  - apply app_nil_r.
  - elim n'. now apply uniq_In.
  - elim n. exact (proj1 (uniq_In _ _) i').
  - rewrite map_app. cbn [map]. f_equal. f_equal. f_equal.
    rewrite membersOf_snoc.
    destruct (string_dec (groupKey r) (groupKey r)) as [_|ne]; [|now elim ne].
    now rewrite membersOf_absent.
Qed.

Lemma membersOf_In (key : string) (rs : list HistoricalRecord) (r : HistoricalRecord) :
  In r (membersOf key rs) <-> In r rs /\ groupKey r = key.
Proof. unfold membersOf. rewrite filter_In, String.eqb_eq. tauto. Qed.

(** What one group contributes: nothing without an eligible record, else
    its key, size, average margin and years. *)
Lemma aggregateGroup_In (key : string) (members : list HistoricalRecord)
    (g : AggregatedData) :
  In g (aggregateGroup (key, members))
  <-> filter marginEligible members <> []
      /\ g = mkAggregated key (List.length members)
               (average (map marginOf (filter marginEligible members)))
               (yearsOf members).
Proof.
  unfold aggregateGroup. cbn [fst snd].
  destruct (filter marginEligible members) as [|e es]; simpl.
  - split; [contradiction|intros [H _]; now elim H].
  - split; [intros [<-|[]]; split; [discriminate|reflexivity]|intros [_ ->]; now left].
Qed.

Lemma unsortedGroups_In (records : list HistoricalRecord) (g : AggregatedData) :
  In g (unsortedGroups records)
  <-> In (brandModel g) (map groupKey records)
      /\ filter marginEligible (membersOf (brandModel g) records) <> []
      /\ g = mkAggregated (brandModel g)
               (List.length (membersOf (brandModel g) records))
               (average (map marginOf
                           (filter marginEligible (membersOf (brandModel g) records))))
               (yearsOf (membersOf (brandModel g) records)).
Proof.
  unfold unsortedGroups. rewrite groupRecords_eq, in_flat_map. split.
  - intros ([k ms] & Hin & Hg). apply in_map_iff in Hin as (k' & E & Hk).
    injection E as -> <-. apply aggregateGroup_In in Hg as [Hne ->]. cbn [brandModel].
    split; [exact (proj1 (uniq_In _ _) Hk)|]. split; [exact Hne|reflexivity].
  - intros (Hk & Hne & Hg).
    exists (brandModel g, membersOf (brandModel g) records). split.
    + apply in_map_iff. exists (brandModel g). split; [reflexivity|].
      now apply uniq_In.
    + apply aggregateGroup_In. split; assumption.
Qed.

Lemma subseq_map {A B : Type} (f : A -> B) (a b : list A) :
  subseq a b -> subseq (map f a) (map f b).
Proof. induction 1; simpl; [constructor|now apply subseq_skip|now apply subseq_take]. Qed.

Lemma unsortedGroups_keys (records : list HistoricalRecord) :
  subseq (map brandModel (unsortedGroups records)) (firstSeenKeys records).
Proof.
  unfold unsortedGroups. rewrite groupRecords_eq.
  induction (firstSeenKeys records) as [|k ks IH]; [constructor|].
  cbn [map flat_map]. rewrite map_app.
  unfold aggregateGroup at 1. cbn [fst snd].
  destruct (map marginOf (filter marginEligible (membersOf k records))).
  - now apply subseq_skip.
  - now apply subseq_take.
Qed.

Lemma aggregateData_eq (records : list HistoricalRecord) :
  aggregateData records
  = JS.sortBy (descending (fun a => Z.of_nat (count a))) (unsortedGroups records).
Proof. reflexivity. Qed.

Lemma aggregateData_In (records : list HistoricalRecord) (g : AggregatedData) :
  In g (aggregateData records) <-> In g (unsortedGroups records).
Proof.
  rewrite aggregateData_eq. split; apply Permutation_in.
  - apply sortBy_perm.
  - symmetry. apply sortBy_perm.
Qed.

(** C5, as the claim states it, fails: a sold price of 0 is present, and
    the record is left out of the average all the same. *)
Lemma aggregateData_sold_zero :
  specEligible swiftSoldZero = true
  /\ aggregateData [swift2018; swiftSoldZero]
     = [mkAggregated "Maruti Swift" 2 (marginOf swift2018) ["2018"; "2020"]]
  /\ average (map marginOf
                (filter specEligible (membersOf "Maruti Swift" [swift2018; swiftSoldZero])))
     <> marginOf swift2018.
Proof.
  split; [reflexivity|]. split; [vm_compute; reflexivity|].
  intros H.
  assert (Hneg : PrimFloat.ltb (marginOf swift2018) 0 = false) by reflexivity.
  rewrite <- H in Hneg. vm_compute in Hneg. discriminate.
Qed.

(** C5 (amended): every group of the aggregator's output has [count]
    equal to the number of records of its key and [avgMargin] equal to
    the arithmetic mean of [(sold - bought) / bought * 100] over exactly
    the records of its key whose prices are both truthy (present, not
    NaN, not zero) with a positive bought price; a key appears exactly
    when it has such a record; the output is sorted by non-increasing
    [count], and groups of equal [count] are in first-seen order of
    their keys. *)
Theorem aggregateData_spec (records : list HistoricalRecord) :
  (forall g, In g (aggregateData records) ->
     let members := membersOf (brandModel g) records in
     let eligible := filter marginEligible members in
     eligible <> []
     /\ avgMargin g = average (map marginOf eligible)
     /\ count g = List.length members)
  /\ (forall key,
        (exists g, In g (aggregateData records) /\ brandModel g = key)
        <-> (exists r, In r records /\ groupKey r = key /\ marginEligible r = true))
  /\ StronglySorted (fun a b => (count b <= count a)%nat) (aggregateData records)
  /\ (forall n,
        subseq (map brandModel (filter (fun g => (count g =? n)%nat) (aggregateData records)))
          (firstSeenKeys records)).
Proof.
  split; [|split; [|split]].
  - intros g Hg members eligible.
    apply aggregateData_In, unsortedGroups_In in Hg as (_ & Hne & Hg).
    split; [exact Hne|]. rewrite Hg. split; reflexivity.
  - intros key. split.
    + intros (g & Hg & <-).
      apply aggregateData_In, unsortedGroups_In in Hg as (_ & Hne & _).
      destruct (filter marginEligible (membersOf (brandModel g) records))
        as [|r rest] eqn:E; [now elim Hne|].
      assert (Hr : In r (filter marginEligible (membersOf (brandModel g) records)))
        by (rewrite E; now left).
      apply filter_In in Hr as [Hr He]. apply membersOf_In in Hr as [Hr Hk].
      now exists r.
    + intros (r & Hr & Hk & He).
      assert (Hin : In r (filter marginEligible (membersOf key records))).
      { apply filter_In. split; [now apply membersOf_In|exact He]. }
      exists (mkAggregated key (List.length (membersOf key records))
                (average (map marginOf (filter marginEligible (membersOf key records))))
                (yearsOf (membersOf key records))).
      split; [|reflexivity].
      apply aggregateData_In, unsortedGroups_In. cbn [brandModel].
      split; [|split; [|reflexivity]].
      * rewrite <- Hk. now apply in_map.
      * intros E. rewrite E in Hin. contradiction.
  - rewrite aggregateData_eq.
    pose proof (sortBy_sorted (fun a => Z.of_nat (count a)) (unsortedGroups records)) as H.
    induction H as [|g l Hs IH Hg]; constructor; [exact IH|].
    rewrite Forall_forall in *. intros b Hb. specialize (Hg b Hb). lia.
  - intros n. rewrite aggregateData_eq.
    rewrite (filter_ext _ (fun g => Z.of_nat (count g) =? Z.of_nat n)).
    + rewrite (sortBy_stable (fun a => Z.of_nat (count a))).
      eapply subseq_trans; [|apply unsortedGroups_keys].
      apply subseq_map, subseq_filter.
    + intros g. destruct (Nat.eqb_spec (count g) n), (Z.eqb_spec (Z.of_nat (count g)) (Z.of_nat n));
        try reflexivity; lia.
Qed.

Lemma aggregateData_spec_witness :
  avgMargin (mkAggregated "Maruti Swift" 2 (marginOf swift2018) ["2018"; "2020"])
  = average (map marginOf
               (filter marginEligible
                  (membersOf "Maruti Swift" [swift2018; swiftSoldZero]))).
Proof.
  apply (aggregateData_spec [swift2018; swiftSoldZero]).
  vm_compute. now left.
Defined.

(** ** Zero and unparsable prices *)

Lemma falsyPresent_not_truthy (o : option float) :
  falsyPresent o = true -> JS.truthyOptNum o = false.
Proof.
  destruct o as [x|]; [|discriminate]. simpl. unfold JS.truthyNum.
  intros H. rewrite orb_comm, H. reflexivity.
Qed.

Lemma falsy_price_flags (r : HistoricalRecord) :
  falsyPresent (boughtPrice r) = true \/ falsyPresent (soldPrice r) = true ->
  marginEligible r = false /\ hasBothPrices r = false.
Proof.
  unfold marginEligible, hasBothPrices.
  intros [H|H]; apply falsyPresent_not_truthy in H; rewrite H; simpl;
    rewrite ?andb_false_r; split; reflexivity.
Qed.

(** The parser produces such prices: a cell "0" is the number 0 and a
    cell that is not a number, or is missing, is [NaN]. *)
Lemma parseFloat_falsy :
  falsyPresent (Some (JS.parseFloat (Some "0"))) = true
  /\ falsyPresent (Some (JS.parseFloat (Some "-0.00"))) = true
  /\ falsyPresent (Some (JS.parseFloat (Some "n/a"))) = true
  /\ falsyPresent (Some (JS.parseFloat (Some ""))) = true
  /\ falsyPresent (Some (JS.parseFloat None)) = true.
Proof. repeat split. Qed.

(** ** The insight composer *)

Lemma parseCSV_nonempty (csvData : string) :
  parseCSV csvData <> [] ->
  JS.truthyStr csvData = true /\ JS.truthyStr (JS.trim csvData) = true.
Proof.
  unfold parseCSV. intros H.
  destruct (JS.truthyStr (JS.trim csvData)) eqn:E; [|now elim H].
  split; [|reflexivity]. destruct csvData; [discriminate|reflexivity].
Qed.

(** Past the two early returns the result is the joined [insights] array
    and the [marginData] of [compose]. *)
Lemma sanitize_compose (csvData : string) (targetCar : TargetVehicle) :
  parseCSV csvData <> [] ->
  sanitizeHistoricalData csvData targetCar
  = mkInsight (JS.join newline (fst (compose (parseCSV csvData) targetCar)))
      (snd (compose (parseCSV csvData) targetCar)).
Proof.
  intros H. unfold sanitizeHistoricalData.
  destruct (parseCSV_nonempty _ H) as [-> ->]. simpl.
  destruct (parseCSV csvData) as [|r rs]; [now elim H|].
  now destruct (compose (r :: rs) targetCar).
Qed.

Lemma transactionLines_filter (txns : list HistoricalRecord) :
  flat_map transactionLine txns = map lineText (filter hasBothPrices txns).
Proof.
  induction txns as [|t txns IH]; [reflexivity|].
  simpl. unfold transactionLine at 1.
  destruct (hasBothPrices t); simpl; now rewrite IH.
Qed.

Lemma totalCount_sum (groups : list AggregatedData) :
  totalCount groups = list_sum (map count groups).
Proof.
  unfold totalCount.
  assert (H : forall acc, fold_left (fun sum a => (sum + count a)%nat) groups acc
                          = (acc + list_sum (map count groups))%nat).
  { induction groups as [|g gs IH]; intros acc; simpl; [lia|]. rewrite IH. lia. }
  apply (H O).
Qed.

(** *** The shape of [toFixed] *)

Lemma length_zeros (n : nat) : String.length (JS.zeros n) = n.
Proof. induction n; simpl; congruence. Qed.

Lemma zeros_digits (n : nat) : allStr JS.isDigit (JS.zeros n) = true.
Proof. induction n; simpl; auto. Qed.

Lemma string_of_uint_digits (d : Decimal.uint) :
  allStr JS.isDigit (NilEmpty.string_of_uint d) = true.
Proof. induction d; simpl; auto. Qed.

Lemma showZ_digits (n : Z) : allStr JS.isDigit (JS.showZ n) = true.
Proof.
  unfold JS.showZ, NilZero.string_of_uint.
  destruct (N.to_uint (Z.to_N n)); try reflexivity; apply string_of_uint_digits.
Qed.

Lemma length_substring (s : string) :
  forall n m, (n + m <= String.length s)%nat -> String.length (substring n m s) = m.
Proof.
  induction s as [|c s IH]; intros [|n] [|m]; simpl; intros H;
    try lia; try reflexivity; try (f_equal; apply IH; lia); apply IH; lia.
Qed.

Lemma allStr_substring (p : ascii -> bool) (s : string) :
  forall n m, allStr p s = true -> allStr p (substring n m s) = true.
Proof.
  induction s as [|c s IH]; intros [|n] [|m]; simpl; intros H;
    try reflexivity; apply andb_true_iff in H as [Hc H];
    rewrite ?Hc; simpl; now apply IH.
Qed.

Lemma fixedDigits_shape (n : Z) (f : nat) :
  (0 < f)%nat ->
  exists a b,
    JS.fixedDigits n f = a ++ "." ++ b
    /\ String.length b = f /\ (1 <= String.length a)%nat
    /\ allStr JS.isDigit a = true /\ allStr JS.isDigit b = true.
Proof.
  intros Hf. unfold JS.fixedDigits.
  set (m := JS.zeros (S f - String.length (JS.showZ n)) ++ JS.showZ n).
  assert (Hlen : (S f <= String.length m)%nat).
  { unfold m. rewrite length_append, length_zeros. lia. }
  assert (Hd : allStr JS.isDigit m = true).
  { unfold m. now rewrite allStr_append, zeros_digits, showZ_digits. }
  destruct f as [|f']; [lia|].
  exists (substring 0 (String.length m - S f') m),
         (substring (String.length m - S f') (S f') m).
  split; [reflexivity|].
  rewrite !length_substring by lia.
  repeat split; try lia; now apply allStr_substring.
Qed.

(** In fixed notation [toFixed] writes an optional sign, at least one
    digit, the point and exactly [f] digits. *)
Lemma toFixed_shape (x : float) (f : nat) :
  isFixedRange x = true -> (0 < f)%nat ->
  exists sign a b,
    JS.toFixed x f = sign ++ a ++ "." ++ b
    /\ (sign = "" \/ sign = "-")
    /\ String.length b = f /\ (1 <= String.length a)%nat
    /\ allStr JS.isDigit a = true /\ allStr JS.isDigit b = true.
Proof.
  unfold isFixedRange, JS.toFixed. intros Hr Hf.
  destruct (Prim2SF x) as [sg| | |sg m e]; try discriminate.
  - destruct (fixedDigits_shape 0 f Hf) as (a & b & E & H).
    exists "", a, b. split; [exact E|]. split; [now left|exact H].
  - cbv zeta.
    destruct (10 ^ 21 * (if 0 <=? e then 1 else 2 ^ (- e))
              <=? (if 0 <=? e then Z.pos m * 2 ^ e else Z.pos m)); [discriminate|].
    match goal with
    | |- context [JS.fixedDigits ?n f] =>
        destruct (fixedDigits_shape n f Hf) as (a & b & E & H)
    end.
    exists (if sg then "-" else ""), a, b. rewrite E.
    split; [reflexivity|]. split; [destruct sg; tauto|exact H].
Qed.

(** *** The two branches of the composer *)

Lemma compose_exact (allRecords : list HistoricalRecord) (targetCar : TargetVehicle) :
  let exactMatches :=
    filter (isExactMatch targetCar) (smartFilter allRecords targetCar 50) in
  let priced := filter hasBothPrices exactMatches in
  exactMatches <> [] ->
  compose allRecords targetCar
  = ((priorityHeader targetCar
        :: map lineText (filter hasBothPrices (firstn 5 exactMatches))
        ++ match priced with
           | [] => []
           | _ => [averageLine (map marginOf priced)]
           end
        ++ [contextLine allRecords])%list,
     match priced with
     | [] => None
     | _ => Some (mkMargin (average (map marginOf priced))
                    (JS.showNat (List.length priced) ++ " similar "
                       ++ target_brand targetCar ++ " " ++ target_model targetCar
                       ++ " transactions"))
     end).
Proof.
  intros exactMatches priced Hne. unfold compose. fold exactMatches.
  destruct exactMatches as [|e es] eqn:E; [now elim Hne|].
  rewrite slice0_firstn by lia. rewrite transactionLines_filter.
  unfold exactMargins. fold priced.
  destruct priced as [|q qs]; cbn [map].
  - reflexivity.
  - rewrite <- app_assoc. cbn [List.length map]. rewrite length_map. reflexivity.
Qed.








(** ** The pipeline on the ledger of the specification *)

(** C2: on the two-row Maruti Swift ledger with the target Maruti Swift
    both rows are exact matches; [marginData.percentage] is the mean of
    the two margins, which are 15.56 and 15.00 to two decimals, and is
    15.28 to two decimals; the description is "2 similar Maruti Swift
    transactions"; and the insights hold the priority header and one
    line for each transaction. *)
Theorem roundtrip_maruti_swift :
  parseCSV ledger1 = [swift2018; swift2019]
  /\ filter (isExactMatch marutiSwift) (smartFilter (parseCSV ledger1) marutiSwift 50)
     = [swift2018; swift2019]
  /\ marginData (sanitizeHistoricalData ledger1 marutiSwift)
     = Some (mkMargin ((marginOf swift2018 + marginOf swift2019) / 2)%float
               "2 similar Maruti Swift transactions")
  /\ JS.toFixed (marginOf swift2018) 2 = "15.56"
  /\ JS.toFixed (marginOf swift2019) 2 = "15.00"
  /\ JS.toFixed ((marginOf swift2018 + marginOf swift2019) / 2)%float 2 = "15.28"
  /\ insights (sanitizeHistoricalData ledger1 marutiSwift)
     = JS.join newline
         ["*** PRIORITY: YOUR PAST TRANSACTIONS FOR MARUTI SWIFT ***";
          "- Date: N/A | Maruti Swift (2018) | Bought: ₹4.50L | Sold: ₹5.20L | Margin: 15.6%";
          "- Date: N/A | Maruti Swift (2019) | Bought: ₹4.00L | Sold: ₹4.60L | Margin: 15.0%";
          "AVERAGE MARGIN for this model: 15.3% over 2 transactions.";
          newline ++ "Database Context: 2 total records."]
  /\ JS.includes (insights (sanitizeHistoricalData ledger1 marutiSwift))
       (priorityHeader marutiSwift) = true
  /\ JS.includes (insights (sanitizeHistoricalData ledger1 marutiSwift))
       (lineText swift2018) = true
  /\ JS.includes (insights (sanitizeHistoricalData ledger1 marutiSwift))
       (lineText swift2019) = true.
Proof. repeat split; vm_compute; reflexivity. Qed.

(** ** Determinism *)




(** ** Zero prices through the whole pipeline *)

Lemma filter_map_comm {A B : Type} (p : B -> bool) (h : A -> B) (l : list A) :
  filter p (map h l) = map h (filter (fun x => p (h x)) l).
Proof.
  induction l as [|x l IH]; [reflexivity|].
  simpl. destruct (p (h x)); simpl; now rewrite IH.
Qed.

Lemma slice0_map {A B : Type} (h : A -> B) (l : list A) (e : Z) :
  JS.slice0 (map h l) e = map h (JS.slice0 l e).
Proof. unfold JS.slice0. now rewrite length_map, firstn_map. Qed.

Lemma sortBy_map {A : Type} (key : A -> Z) (h : A -> A) (l : list A) :
  (forall x, key (h x) = key x) ->
  JS.sortBy (descending key) (map h l) = map h (JS.sortBy (descending key) l).
Proof.
  intros Hk. induction l as [|x l IH]; [reflexivity|].
  simpl. rewrite IH. generalize (JS.sortBy (descending key) l). clear IH.
  intros s. induction s as [|y s IH]; [reflexivity|].
  simpl. unfold descending at 1 3. rewrite !Hk.
  destruct (key y - key x <=? 0); [reflexivity|]. simpl. now rewrite IH.
Qed.

Lemma erasePrice_truthy (o : option float) :
  JS.truthyOptNum (erasePrice o) = JS.truthyOptNum o.
Proof.
  unfold erasePrice. destruct (falsyPresent o) eqn:E; [|reflexivity].
  now rewrite (falsyPresent_not_truthy o E).
Qed.

Lemma truthy_not_falsy (o : option float) :
  JS.truthyOptNum o = true -> erasePrice o = o.
Proof.
  unfold erasePrice. destruct (falsyPresent o) eqn:E; [|reflexivity].
  rewrite (falsyPresent_not_truthy o E). discriminate.
Qed.

Lemma eraseFalsy_hasBothPrices (r : HistoricalRecord) :
  hasBothPrices (eraseFalsy r) = hasBothPrices r.
Proof. unfold hasBothPrices. cbn. now rewrite !erasePrice_truthy. Qed.

Lemma eraseFalsy_priced (r : HistoricalRecord) :
  hasBothPrices r = true -> eraseFalsy r = r.
Proof.
  unfold hasBothPrices, eraseFalsy. intros H.
  apply andb_true_iff in H as [Hb Hs].
  rewrite (truthy_not_falsy _ Hb), (truthy_not_falsy _ Hs). now destruct r.
Qed.

Lemma eraseFalsy_eligible (r : HistoricalRecord) :
  marginEligible (eraseFalsy r) = marginEligible r.
Proof.
  destruct (hasBothPrices r) eqn:E.
  - now rewrite eraseFalsy_priced.
  - unfold marginEligible. pose proof (eraseFalsy_hasBothPrices r) as H.
    unfold hasBothPrices in *. cbn in *. rewrite H, E. reflexivity.
Qed.

Lemma eraseFalsy_line (r : HistoricalRecord) :
  transactionLine (eraseFalsy r) = transactionLine r.
Proof.
  destruct (hasBothPrices r) eqn:E.
  - now rewrite eraseFalsy_priced.
  - unfold transactionLine. now rewrite eraseFalsy_hasBothPrices, E.
Qed.

Lemma eraseFalsy_smartFilter (records : list HistoricalRecord) (target : TargetVehicle)
    (maxRecords : Z) :
  smartFilter (map eraseFalsy records) target maxRecords
  = map eraseFalsy (smartFilter records target maxRecords).
Proof.
  rewrite !smartFilter_eq, filter_map_comm.
  rewrite (sortBy_map (fun r => calculateRelevance r target)) by reflexivity.
  apply slice0_map.
Qed.

Lemma eraseFalsy_margins (records : list HistoricalRecord) :
  map marginOf (filter marginEligible (map eraseFalsy records))
  = map marginOf (filter marginEligible records).
Proof.
  rewrite filter_map_comm, map_map.
  rewrite (filter_ext _ marginEligible) by apply eraseFalsy_eligible.
  apply map_ext_in. intros r Hr. apply filter_In in Hr as [_ He].
  rewrite eraseFalsy_priced; [reflexivity|].
  unfold marginEligible in He. apply andb_true_iff in He as [He _]. exact He.
Qed.

Lemma eraseFalsy_exactMargins (records : list HistoricalRecord) :
  exactMargins (map eraseFalsy records) = exactMargins records.
Proof.
  unfold exactMargins. rewrite filter_map_comm, map_map.
  rewrite (filter_ext _ hasBothPrices) by apply eraseFalsy_hasBothPrices.
  apply map_ext_in. intros r Hr. apply filter_In in Hr as [_ He].
  now rewrite eraseFalsy_priced.
Qed.

Lemma eraseFalsy_lines (records : list HistoricalRecord) :
  flat_map transactionLine (map eraseFalsy records) = flat_map transactionLine records.
Proof.
  induction records as [|r rs IH]; [reflexivity|].
  simpl. now rewrite IH, eraseFalsy_line.
Qed.

Lemma eraseFalsy_members (key : string) (records : list HistoricalRecord) :
  membersOf key (map eraseFalsy records) = map eraseFalsy (membersOf key records).
Proof. unfold membersOf. now rewrite filter_map_comm. Qed.

Lemma eraseFalsy_years (records : list HistoricalRecord) :
  yearsOf (map eraseFalsy records) = yearsOf records.
Proof.
  unfold yearsOf. f_equal.
  induction records as [|r rs IH]; [reflexivity|]. simpl. now rewrite IH.
Qed.

Lemma eraseFalsy_aggregateData (records : list HistoricalRecord) :
  aggregateData (map eraseFalsy records) = aggregateData records.
Proof.
  rewrite !aggregateData_eq. f_equal.
  unfold unsortedGroups. rewrite !groupRecords_eq.
  unfold firstSeenKeys. rewrite map_map.
  change (map (fun x => groupKey (eraseFalsy x)) records) with (map groupKey records).
  induction (JS.uniq (map groupKey records)) as [|k ks IH]; [reflexivity|].
  cbn [map flat_map]. rewrite IH. f_equal.
  unfold aggregateGroup. cbn [fst snd].
  now rewrite eraseFalsy_members, eraseFalsy_margins, eraseFalsy_years, length_map.
Qed.

(** The composer cannot tell a zero or unparsable price from an absent
    one. *)
Lemma eraseFalsy_compose (allRecords : list HistoricalRecord) (targetCar : TargetVehicle) :
  compose (map eraseFalsy allRecords) targetCar = compose allRecords targetCar.
Proof.
  unfold compose.
  rewrite eraseFalsy_smartFilter, eraseFalsy_aggregateData, filter_map_comm.
  change (fun x => isExactMatch targetCar (eraseFalsy x)) with (isExactMatch targetCar).
  unfold contextLine. rewrite length_map.
  destruct (filter (isExactMatch targetCar) (smartFilter allRecords targetCar 50))
    as [|e es]; [reflexivity|].
  cbn [map]. cbv iota.
  change (eraseFalsy e :: map eraseFalsy es) with (map eraseFalsy (e :: es)).
  rewrite slice0_map, eraseFalsy_lines, eraseFalsy_exactMargins.
  reflexivity.
Qed.

(** C10: a record whose bought or sold price is present but is 0 (or
    -0, or the NaN of a failed parse) takes part in no margin
    computation: it is not eligible in the aggregator, the composer
    writes no transaction line for it, and it is not counted in the
    exact-match average, so that in each of the three places the lists
    computed with and without the record are the same.  A zero price is
    treated exactly like an absent one: making every such price absent
    changes neither the aggregator's output nor the composer's. *)
Theorem falsy_price_excluded :
  (forall r,
     falsyPresent (boughtPrice r) = true \/ falsyPresent (soldPrice r) = true ->
     (marginEligible r = false /\ hasBothPrices r = false /\ transactionLine r = [])
     /\ (forall before after,
           map marginOf (filter marginEligible (before ++ r :: after))
           = map marginOf (filter marginEligible (before ++ after)))
     /\ (forall before after,
           flat_map transactionLine (before ++ r :: after)
           = flat_map transactionLine (before ++ after))
     /\ (forall before after,
           exactMargins (before ++ r :: after) = exactMargins (before ++ after)))
  /\ (forall r,
        boughtPrice (eraseFalsy r)
        = (if falsyPresent (boughtPrice r) then None else boughtPrice r)
        /\ soldPrice (eraseFalsy r)
           = (if falsyPresent (soldPrice r) then None else soldPrice r)
        /\ marginEligible (eraseFalsy r) = marginEligible r
        /\ hasBothPrices (eraseFalsy r) = hasBothPrices r
        /\ transactionLine (eraseFalsy r) = transactionLine r)
  /\ (forall records,
        aggregateData (map eraseFalsy records) = aggregateData records)
  /\ (forall allRecords targetCar,
        compose (map eraseFalsy allRecords) targetCar = compose allRecords targetCar).
Proof.
  split; [|split; [|split]].
  - intros r H. destruct (falsy_price_flags r H) as [He Hb].
    assert (Hl : transactionLine r = []) by (unfold transactionLine; now rewrite Hb).
    split; [now repeat split|]. split; [|split].
    + intros before after. rewrite !filter_app. simpl. now rewrite He.
    + intros before after. rewrite !flat_map_app. simpl. now rewrite Hl.
    + intros before after. unfold exactMargins. rewrite !filter_app. simpl.
      now rewrite Hb.
  - intros r. split; [reflexivity|]. split; [reflexivity|].
    split; [apply eraseFalsy_eligible|].
    split; [apply eraseFalsy_hasBothPrices|apply eraseFalsy_line].
  - apply eraseFalsy_aggregateData.
  - apply eraseFalsy_compose.
Qed.

Lemma falsy_price_excluded_witness :
  marginEligible swiftSoldZero = false
  /\ hasBothPrices swiftSoldZero = false
  /\ transactionLine swiftSoldZero = [].
Proof.
  exact (proj1 (proj1 falsy_price_excluded swiftSoldZero (or_intror eq_refl))).
Defined.

(** * Further properties of the pipeline *)

(** ** The parser: rows and columns *)

Lemma filter_length_bound {A : Type} (p : A -> bool) (l : list A) :
  (List.length (filter p l) <= List.length l)%nat.
Proof. induction l as [|x l IH]; simpl; [lia|]. destruct (p x); simpl; lia. Qed.




(** One [forEach] step as its seven guarded assignments in turn. *)
Lemma assignCell_steps (header : string) (value : option string) (r : HistoricalRecord) :
  assignCell header value r
  = when (JS.includes header "sold" || JS.includes header "sale") (setSold value)
      (when (JS.includes header "bought" || JS.includes header "purchase")
         (setBought value)
         (when (JS.includes header "date") (setDate value)
            (when (JS.includes header "year") (setYear value)
               (when (JS.includes header "variant") (setVariant value)
                  (when (JS.includes header "model") (setModel value)
                     (when (JS.includes header "brand") (setBrand value) r)))))).
Proof. reflexivity. Qed.

Ltac assignCell_cases header :=
  rewrite assignCell_steps;
  generalize (JS.includes header "brand") (JS.includes header "model")
    (JS.includes header "variant") (JS.includes header "year")
    (JS.includes header "date")
    (JS.includes header "bought" || JS.includes header "purchase")
    (JS.includes header "sold" || JS.includes header "sale");
  intros [] [] [] [] [] [] [].

(** One step keeps a price that is set and sets it under a matching
    header. *)
Lemma assignCell_bought (header : string) (value : option string) (r : HistoricalRecord) :
  isSome (boughtPrice (assignCell header value r))
  = (JS.includes header "bought" || JS.includes header "purchase")
    || isSome (boughtPrice r).
Proof. assignCell_cases header; reflexivity. Qed.

Lemma assignCell_sold (header : string) (value : option string) (r : HistoricalRecord) :
  isSome (soldPrice (assignCell header value r))
  = (JS.includes header "sold" || JS.includes header "sale")
    || isSome (soldPrice r).
Proof. assignCell_cases header; reflexivity. Qed.

Lemma assignCell_untouched (header : string) (value : option string) (r : HistoricalRecord) :
  (JS.includes header "brand" = false -> brand (assignCell header value r) = brand r)
  /\ (JS.includes header "model" = false -> model (assignCell header value r) = model r)
  /\ (JS.includes header "variant" = false ->
      variant (assignCell header value r) = variant r)
  /\ (JS.includes header "year" = false -> year (assignCell header value r) = year r)
  /\ (JS.includes header "date" = false -> date (assignCell header value r) = date r).
Proof.
  assignCell_cases header;
    (split; [|split; [|split; [|split]]]); intros H; reflexivity || discriminate H.
Qed.

Lemma hasColumn_cons (tokens : list string) (header : string) (headers : list string) :
  hasColumn tokens (header :: headers)
  = existsb (JS.includes header) tokens || hasColumn tokens headers.
Proof. reflexivity. Qed.

Lemma assignCells_prices (headers : list string) :
  forall index values r,
    isSome (boughtPrice (assignCells headers index values r))
    = hasColumn ["bought"; "purchase"] headers || isSome (boughtPrice r)
    /\ isSome (soldPrice (assignCells headers index values r))
       = hasColumn ["sold"; "sale"] headers || isSome (soldPrice r).
Proof.
  induction headers as [|h hs IH]; intros index values r; [split; reflexivity|].
  cbn [assignCells]. rewrite !hasColumn_cons.
  destruct (IH (S index) values (assignCell h (nth_error values index) r)) as [-> ->].
  rewrite assignCell_bought, assignCell_sold. cbn [existsb].
  rewrite !orb_false_r. split.
  - destruct (hasColumn ["bought"; "purchase"] hs),
      (JS.includes h "bought" || JS.includes h "purchase"); reflexivity.
  - destruct (hasColumn ["sold"; "sale"] hs),
      (JS.includes h "sold" || JS.includes h "sale"); reflexivity.
Qed.

Lemma assignCells_strings (headers : list string) :
  forall index values r,
    (hasColumn ["brand"] headers = false ->
     brand (assignCells headers index values r) = brand r)
    /\ (hasColumn ["model"] headers = false ->
        model (assignCells headers index values r) = model r)
    /\ (hasColumn ["variant"] headers = false ->
        variant (assignCells headers index values r) = variant r)
    /\ (hasColumn ["year"] headers = false ->
        year (assignCells headers index values r) = year r)
    /\ (hasColumn ["date"] headers = false ->
        date (assignCells headers index values r) = date r).
Proof.
  induction headers as [|h hs IH]; intros index values r;
    [repeat split; reflexivity|].
  cbn [assignCells]. rewrite !hasColumn_cons. cbn [existsb].
  rewrite !orb_false_r.
  destruct (IH (S index) values (assignCell h (nth_error values index) r))
    as (Hb & Hm & Hv & Hy & Hd).
  destruct (assignCell_untouched h (nth_error values index) r)
    as (Hb' & Hm' & Hv' & Hy' & Hd').
  split; [|split; [|split; [|split]]]; intros H; apply orb_false_iff in H as [H1 H2].
  - now rewrite Hb, Hb'.
  - now rewrite Hm, Hm'.
  - now rewrite Hv, Hv'.
  - now rewrite Hy, Hy'.
  - now rewrite Hd, Hd'.
Qed.

Lemma parseCSV_In (csvData : string) (r : HistoricalRecord) :
  In r (parseCSV csvData) ->
  exists line, r = parseLine (headersOf csvData) line.
Proof.
  unfold parseCSV, headersOf.
  destruct (negb (JS.truthyStr (JS.trim csvData))); [contradiction|].
  destruct (JS.split JS.LF (JS.trim csvData)) as [|h [|row rows]];
    try contradiction.
  intros Hin. apply in_map_iff in Hin as (line & <- & _). now exists line.
Qed.

(** X2: the header alone decides which fields the records carry.  A
    price field holds a number (NaN for a missing or unparsable cell) in
    every record when some header cell contains its token, and is
    undefined in every record otherwise; a text field is undefined in
    every record when no header cell contains its token. *)
Theorem parseCSV_columns (csvData : string) (r : HistoricalRecord) :
  In r (parseCSV csvData) ->
  isSome (boughtPrice r) = hasColumn ["bought"; "purchase"] (headersOf csvData)
  /\ isSome (soldPrice r) = hasColumn ["sold"; "sale"] (headersOf csvData)
  /\ (hasColumn ["brand"] (headersOf csvData) = false -> brand r = None)
  /\ (hasColumn ["model"] (headersOf csvData) = false -> model r = None)
  /\ (hasColumn ["variant"] (headersOf csvData) = false -> variant r = None)
  /\ (hasColumn ["year"] (headersOf csvData) = false -> year r = None)
  /\ (hasColumn ["date"] (headersOf csvData) = false -> date r = None).
Proof.
  intros Hin. apply parseCSV_In in Hin as (line & ->). unfold parseLine.
  set (values := map JS.trim (JS.split JS.comma line)).
  destruct (assignCells_prices (headersOf csvData) 0 values emptyRecord) as [-> ->].
  destruct (assignCells_strings (headersOf csvData) 0 values emptyRecord)
    as (Hb & Hm & Hv & Hy & Hd).
  cbn [emptyRecord boughtPrice soldPrice isSome]. rewrite !orb_false_r.
  repeat split; auto.
Qed.

Lemma parseCSV_columns_witness :
  isSome (boughtPrice swift2018) = hasColumn ["bought"; "purchase"] (headersOf ledger1).
Proof.
  refine (proj1 (parseCSV_columns ledger1 swift2018 _)).
  vm_compute. now left.
Defined.

(** ** The scorer: case, zero and exact matches *)


Lemma truthy_lower (s s' : string) :
  JS.toLowerCase s = JS.toLowerCase s' -> JS.truthyStr s = JS.truthyStr s'.
Proof. intros E. now rewrite <- (toLowerCase_truthy s), E, toLowerCase_truthy. Qed.



Lemma calculateRelevance_zero (r : HistoricalRecord) (t : TargetVehicle) :
  (0 <? calculateRelevance r t) = isRelevant t r.
Proof.
  rewrite calculateRelevance_sum. unfold isRelevant.
  destruct (exactBrand r t), (exactModel r t), (partialModel r t); reflexivity.
Qed.

Lemma partialModel_target (r : HistoricalRecord) (t : TargetVehicle) :
  partialModel r t = true -> JS.truthyStr (target_model t) = true.
Proof.
  unfold partialModel. destruct (model r) as [m|]; [|discriminate].
  intros H. apply andb_true_iff in H as [H _].
  now apply andb_true_iff in H as [_ H].
Qed.

Lemma exactModel_partial_eq (r : HistoricalRecord) (t : TargetVehicle) :
  exactModel r t = true -> partialModel r t = JS.truthyStr (target_model t).
Proof.
  intros E. destruct (JS.truthyStr (target_model t)) eqn:T.
  - apply exactModel_partial; [exact E|].
    unfold exactModel, JS.lowerEq in E. unfold JS.truthyOptStr.
    destruct (model r) as [m|]; [|discriminate].
    apply String.eqb_eq in E. now rewrite (truthy_lower _ _ E).
  - destruct (partialModel r t) eqn:P; [|reflexivity].
    apply partialModel_target in P. congruence.
Qed.

Lemma exact_score (r : HistoricalRecord) (t : TargetVehicle) :
  isExactMatch t r = true -> calculateRelevance r t = exactScore t.
Proof.
  unfold isExactMatch. intros H. apply andb_true_iff in H as [Hb Hm].
  rewrite calculateRelevance_sum. unfold exactBrand.
  rewrite Hb. fold (exactModel r t) in Hm.
  rewrite (exactModel_partial_eq r t Hm), Hm. unfold exactScore.
  destruct (JS.truthyStr (target_model t)); reflexivity.
Qed.

Lemma inexact_score (r : HistoricalRecord) (t : TargetVehicle) :
  isExactMatch t r = false -> calculateRelevance r t < exactScore t.
Proof.
  unfold isExactMatch. fold (exactBrand r t) (exactModel r t). intros H.
  rewrite calculateRelevance_sum. unfold exactScore.
  pose proof (partialModel_target r t) as P.
  destruct (exactBrand r t), (exactModel r t); try discriminate;
    destruct (partialModel r t); try rewrite (P eq_refl);
    destruct (JS.truthyStr (target_model t)); lia.
Qed.



(** ** The selector: what is kept, and in which order *)

Section SortFacts.
Context {A : Type}.
Variable key : A -> Z.

Lemma insertBy_front (x : A) (l : list A) :
  (forall y, In y l -> key y <= key x) ->
  JS.insertBy (descending key) x l = x :: l.
Proof.
  destruct l as [|y l]; [reflexivity|]. intros H. simpl.
  unfold descending. specialize (H y (or_introl eq_refl)).
  destruct (Z.leb_spec (key y - key x) 0); [reflexivity|lia].
Qed.

Lemma insertBy_after (x : A) (top rest : list A) :
  (forall y, In y top -> key x < key y) ->
  JS.insertBy (descending key) x (top ++ rest)
  = (top ++ JS.insertBy (descending key) x rest)%list.
Proof.
  induction top as [|y top IH]; intros H; [reflexivity|].
  simpl. unfold descending at 1.
  pose proof (H y (or_introl eq_refl)).
  destruct (Z.leb_spec (key y - key x) 0); [lia|].
  rewrite IH; [reflexivity|]. intros z Hz. apply H. now right.
Qed.

(** Sorting puts the elements of the highest key first, in their
    order, and sorts the rest behind them. *)
Lemma sortBy_top (top : Z) (l : list A) :
  (forall x, In x l -> key x <= top) ->
  JS.sortBy (descending key) l
  = (filter (fun x => key x =? top) l
     ++ JS.sortBy (descending key) (filter (fun x => negb (key x =? top)) l))%list.
Proof.
  induction l as [|x l IH]; intros H; [reflexivity|].
  assert (Hl : forall y, In y l -> key y <= top) by (intros y Hy; apply H; now right).
  pose proof (H x (or_introl eq_refl)) as Hx.
  simpl. rewrite (IH Hl). destruct (Z.eqb_spec (key x) top) as [E|N]; simpl.
  - apply insertBy_front. intros y Hy. rewrite E. apply in_app_or in Hy as [Hy|Hy].
    + apply filter_In in Hy as [Hy _]. auto.
    + apply (Permutation_in _ (sortBy_perm key _)) in Hy.
      apply filter_In in Hy as [Hy _]. auto.
  - apply insertBy_after. intros y Hy. apply filter_In in Hy as [_ Hy].
    apply Z.eqb_eq in Hy. lia.
Qed.

Lemma sortBy_sorted_id (l : list A) :
  StronglySorted (fun a b => key b <= key a) l -> JS.sortBy (descending key) l = l.
Proof.
  induction 1 as [|x l Hs IH Hx]; [reflexivity|].
  simpl. rewrite IH. apply insertBy_front. now apply Forall_forall.
Qed.
End SortFacts.

Lemma filter_all {A : Type} (p : A -> bool) (l : list A) :
  (forall x, In x l -> p x = true) -> filter p l = l.
Proof.
  induction l as [|x l IH]; intros H; [reflexivity|]. simpl.
  rewrite (H x (or_introl eq_refl)). f_equal. apply IH. intros y Hy. apply H. now right.
Qed.

Lemma filter_none {A : Type} (p : A -> bool) (l : list A) :
  (forall x, In x l -> p x = false) -> filter p l = [].
Proof.
  induction l as [|x l IH]; intros H; [reflexivity|]. simpl.
  rewrite (H x (or_introl eq_refl)). apply IH. intros y Hy. apply H. now right.
Qed.

Lemma filter_filter_and {A : Type} (p q : A -> bool) (l : list A) :
  filter p (filter q l) = filter (fun x => q x && p x) l.
Proof.
  induction l as [|x l IH]; [reflexivity|]. simpl.
  destruct (q x); simpl; [destruct (p x)|]; now rewrite IH.
Qed.

(** The selector as a prefix of the sorted relevant records. *)
Lemma smartFilter_firstn (records : list HistoricalRecord) (target : TargetVehicle)
    (maxRecords : Z) :
  0 <= maxRecords ->
  smartFilter records target maxRecords
  = firstn (Z.to_nat maxRecords)
      (JS.sortBy (descending (fun r => calculateRelevance r target))
         (filter (isRelevant target) records)).
Proof.
  intros Hk. rewrite smartFilter_eq, slice0_firstn by assumption.
  do 2 f_equal. apply filter_ext. intros r. apply calculateRelevance_zero.
Qed.



Lemma exact_is_relevant (t : TargetVehicle) (r : HistoricalRecord) :
  isExactMatch t r = true -> isRelevant t r = true.
Proof.
  unfold isExactMatch, isRelevant. fold (exactBrand r t). intros H.
  apply andb_true_iff in H as [-> _]. reflexivity.
Qed.

Lemma exact_iff_score (t : TargetVehicle) (r : HistoricalRecord) :
  (calculateRelevance r t =? exactScore t) = isExactMatch t r.
Proof.
  destruct (isExactMatch t r) eqn:E.
  - rewrite (exact_score r t E). apply Z.eqb_refl.
  - apply Z.eqb_neq. pose proof (inexact_score r t E). lia.
Qed.

Lemma score_le_exact (t : TargetVehicle) (r : HistoricalRecord) :
  calculateRelevance r t <= exactScore t.
Proof.
  destruct (isExactMatch t r) eqn:E.
  - rewrite (exact_score r t E). lia.
  - pose proof (inexact_score r t E). lia.
Qed.

(** The selected records are the first exact matches of the input
    followed by records that are not exact matches. *)
Lemma smartFilter_exact_split (records : list HistoricalRecord) (target : TargetVehicle)
    (maxRecords : Z) :
  0 <= maxRecords ->
  exists others,
    smartFilter records target maxRecords
    = (firstn (Z.to_nat maxRecords) (filter (isExactMatch target) records)
       ++ others)%list
    /\ (forall r, In r others -> isExactMatch target r = false).
Proof.
  intros Hk. rewrite (smartFilter_firstn _ _ _ Hk).
  set (score := fun r => calculateRelevance r target).
  rewrite (sortBy_top score (exactScore target))
    by (intros x _; apply score_le_exact).
  rewrite !filter_filter_and.
  rewrite (filter_ext (fun x => isRelevant target x && (score x =? exactScore target))
             (isExactMatch target)).
  2:{ intros r. unfold score. rewrite exact_iff_score.
      destruct (isExactMatch target r) eqn:E; [|apply andb_false_r].
      now rewrite (exact_is_relevant _ _ E). }
  set (exact := filter (isExactMatch target) records).
  set (rest := JS.sortBy (descending score) _).
  rewrite firstn_app. eexists. split; [reflexivity|].
  intros r Hr.
  assert (Hin : In r rest).
  { rewrite <- (firstn_skipn (Z.to_nat maxRecords - List.length exact) rest).
    apply in_or_app. now left. }
  unfold rest in Hin. apply (Permutation_in _ (sortBy_perm score _)) in Hin.
  apply filter_In in Hin as [_ Hin]. apply andb_true_iff in Hin as [_ Hin].
  unfold score in Hin. rewrite exact_iff_score in Hin.
  now destruct (isExactMatch target r).
Qed.

Lemma smartFilter_exact_eq (records : list HistoricalRecord) (target : TargetVehicle)
    (maxRecords : Z) :
  0 <= maxRecords ->
  filter (isExactMatch target) (smartFilter records target maxRecords)
  = firstn (Z.to_nat maxRecords) (filter (isExactMatch target) records).
Proof.
  intros Hk. destruct (smartFilter_exact_split records target maxRecords Hk)
    as (others & -> & Hothers).
  rewrite filter_app, (filter_none _ others Hothers), app_nil_r.
  apply filter_all. intros r Hr.
  assert (Hin : In r (filter (isExactMatch target) records)).
  { rewrite <- (firstn_skipn (Z.to_nat maxRecords)). apply in_or_app. now left. }
  now apply filter_In in Hin as [_ Hin].
Qed.



(** X7: selecting is idempotent, and a smaller bound gives a prefix of
    what a larger bound gives. *)
Theorem smartFilter_idempotent (records : list HistoricalRecord) (target : TargetVehicle)
    (maxRecords larger : Z) :
  0 <= maxRecords -> maxRecords <= larger ->
  smartFilter (smartFilter records target maxRecords) target maxRecords
  = smartFilter records target maxRecords
  /\ smartFilter records target maxRecords
     = firstn (Z.to_nat maxRecords) (smartFilter records target larger).
Proof.
  intros Hk Hl. split.
  - rewrite (smartFilter_firstn (smartFilter records target maxRecords) _ _ Hk).
    rewrite (smartFilter_firstn records _ _ Hk).
    set (score := fun r => calculateRelevance r target).
    set (sorted := JS.sortBy (descending score) (filter (isRelevant target) records)).
    assert (Hrel : forall r, In r (firstn (Z.to_nat maxRecords) sorted) ->
                             isRelevant target r = true).
    { intros r Hr.
      assert (Hin : In r sorted).
      { rewrite <- (firstn_skipn (Z.to_nat maxRecords) sorted).
        apply in_or_app. now left. }
      apply (Permutation_in _ (sortBy_perm score _)) in Hin.
      now apply filter_In in Hin as [_ Hin]. }
    rewrite (filter_all _ _ Hrel).
    rewrite sortBy_sorted_id
      by (apply StronglySorted_firstn, sortBy_sorted).
    apply firstn_all2. rewrite length_firstn. lia.
  - rewrite (smartFilter_firstn records _ _ Hk).
    rewrite (smartFilter_firstn records _ larger) by lia.
    rewrite firstn_firstn. f_equal. lia.
Qed.

Lemma smartFilter_idempotent_witness :
  smartFilter (smartFilter [swift2018; emptyRecord; swift2019] marutiSwift 1) marutiSwift 1
  = smartFilter [swift2018; emptyRecord; swift2019] marutiSwift 1.
Proof.
  refine (proj1 (smartFilter_idempotent [swift2018; emptyRecord; swift2019]
                   marutiSwift 1 50 _ _)); lia.
Defined.

(** ** The composer on the ledger *)



(** ** The aggregator: keys, counts and years *)

Lemma subseq_In {A : Type} (a b : list A) (x : A) : subseq a b -> In x a -> In x b.
Proof.
  induction 1 as [|y a b H IH|y a b H IH]; simpl; [tauto|tauto|].
  intros [->|Hx]; [now left|right; auto].
Qed.

Lemma subseq_NoDup {A : Type} (a b : list A) : subseq a b -> NoDup b -> NoDup a.
Proof.
  induction 1 as [|y a b H IH|y a b H IH]; intros Hb.
  - constructor.
  - inversion Hb; auto.
  - inversion Hb as [|? ? Hy Hb']; subst. constructor; [|auto].
    intros Hin. apply Hy. eapply subseq_In; eassumption.
Qed.

Lemma list_sum_cons (x : nat) (l : list nat) :
  list_sum (x :: l) = (x + list_sum l)%nat.
Proof. reflexivity. Qed.

Lemma one_key_at_most (key : string) (keys : list string) :
  NoDup keys ->
  (list_sum (map (fun k => if (key =? k)%string then 1 else 0)%nat keys) <= 1)%nat
  /\ (In key keys ->
      list_sum (map (fun k => if (key =? k)%string then 1 else 0)%nat keys) = 1%nat).
Proof.
  induction 1 as [|k keys Hk Hnd [IHle IHeq]]; simpl; [split; [lia|tauto]|].
  destruct (String.eqb_spec key k) as [->|Hne].
  - assert (H0 : list_sum (map (fun k0 => if (k =? k0)%string then 1 else 0)%nat keys)
                 = 0%nat).
    { clear -Hk. induction keys as [|k' keys IH]; [reflexivity|]. simpl.
      destruct (String.eqb_spec k k') as [->|_]; [elim Hk; now left|].
      apply IH. intros H. apply Hk. now right. }
    rewrite H0. split; [lia|reflexivity].
  - split; [exact IHle|]. intros [E|Hin]; [now elim Hne|auto].
Qed.

(** The groups of a duplicate-free list of keys hold each record at most
    once, and exactly once when its key is listed. *)
Lemma members_total (keys : list string) (records : list HistoricalRecord) :
  NoDup keys ->
  (list_sum (map (fun k => List.length (membersOf k records)) keys)
   <= List.length records)%nat
  /\ ((forall r, In r records -> In (groupKey r) keys) ->
      list_sum (map (fun k => List.length (membersOf k records)) keys)
      = List.length records).
Proof.
  intros Hnd. induction records as [|r rs [IHle IHeq]].
  - assert (H0 : list_sum (map (fun _ : string => 0%nat) keys) = 0%nat)
      by (clear; induction keys; simpl; auto).
    unfold membersOf. simpl. rewrite H0. split; [lia|reflexivity].
  - assert (Hsplit :
      list_sum (map (fun k => List.length (membersOf k (r :: rs))) keys)
      = (list_sum (map (fun k => if (groupKey r =? k)%string then 1 else 0)%nat keys)
         + list_sum (map (fun k => List.length (membersOf k rs)) keys))%nat).
    { clear. induction keys as [|k keys IH]; [reflexivity|].
      cbn [map]. rewrite !list_sum_cons, IH.
      unfold membersOf at 1. cbn [filter].
      destruct (groupKey r =? k)%string; cbn [List.length]; unfold membersOf; lia. }
    rewrite Hsplit. destruct (one_key_at_most (groupKey r) keys Hnd) as [Hle Heq].
    cbn [List.length]. split; [lia|]. intros Hall.
    rewrite Heq by (apply Hall; now left).
    rewrite IHeq; [reflexivity|]. intros x Hx. apply Hall. now right.
Qed.

Lemma unsortedGroups_counts (records : list HistoricalRecord) (keys : list string) :
  (list_sum (map count
               (flat_map aggregateGroup (map (fun k => (k, membersOf k records)) keys)))
   <= list_sum (map (fun k => List.length (membersOf k records)) keys))%nat
  /\ ((forall r, In r records -> marginEligible r = true) ->
      (forall k, In k keys -> In k (map groupKey records)) ->
      list_sum (map count
                  (flat_map aggregateGroup (map (fun k => (k, membersOf k records)) keys)))
      = list_sum (map (fun k => List.length (membersOf k records)) keys)).
Proof.
  induction keys as [|k keys [IHle IHeq]]; [split; reflexivity|].
  cbn [map flat_map]. rewrite map_app, list_sum_app, list_sum_cons.
  unfold aggregateGroup at 1 3. cbn [fst snd].
  destruct (filter marginEligible (membersOf k records)) as [|e es] eqn:E; cbn [map].
  - change (list_sum []) with 0%nat. split; [lia|]. intros Hall Hkeys. exfalso.
    assert (Hk : In k (map groupKey records)) by (apply Hkeys; now left).
    apply in_map_iff in Hk as (r & Hr & Hin).
    assert (Hf : In r (filter marginEligible (membersOf k records))).
    { apply filter_In. split; [now apply membersOf_In|now apply Hall]. }
    rewrite E in Hf. contradiction.
  - rewrite list_sum_cons. change (list_sum []) with 0%nat. cbn [count].
    split; [lia|]. intros Hall Hkeys.
    rewrite IHeq; [lia|exact Hall|]. intros k' Hk'. apply Hkeys. now right.
Qed.

(** X9: the aggregator returns at most one group for each key, every
    group counts at least one record, and the counts add up to at most
    the number of input records, and to exactly that number when every
    record is margin-eligible. *)
Theorem aggregateData_counts (records : list HistoricalRecord) :
  NoDup (map brandModel (aggregateData records))
  /\ (forall g, In g (aggregateData records) -> (1 <= count g)%nat)
  /\ (list_sum (map count (aggregateData records)) <= List.length records)%nat
  /\ ((forall r, In r records -> marginEligible r = true) ->
      list_sum (map count (aggregateData records)) = List.length records).
Proof.
  pose proof (sortBy_perm (fun a => Z.of_nat (count a)) (unsortedGroups records)) as Hp.
  rewrite <- aggregateData_eq in Hp.
  assert (Hsum : list_sum (map count (aggregateData records))
                 = list_sum (map count (unsortedGroups records))).
  { clear -Hp. induction Hp; simpl; lia. }
  pose proof (uniq_NoDup (map groupKey records)) as Hnd.
  fold (firstSeenKeys records) in Hnd.
  destruct (members_total (firstSeenKeys records) records Hnd) as [Hle Heq].
  destruct (unsortedGroups_counts records (firstSeenKeys records)) as [Hcle Hceq].
  rewrite <- groupRecords_eq in Hcle, Hceq. fold (unsortedGroups records) in Hcle, Hceq.
  split; [|split; [|split]].
  - apply (Permutation_NoDup (l := map brandModel (unsortedGroups records))).
    + symmetry. now apply Permutation_map.
    + eapply subseq_NoDup; [apply unsortedGroups_keys|exact Hnd].
  - intros g Hg. apply aggregateData_In, unsortedGroups_In in Hg as (_ & Hne & ->).
    cbn [count].
    destruct (filter marginEligible (membersOf (brandModel g) records)) as [|e es] eqn:E;
      [now elim Hne|].
    assert (He : In e (membersOf (brandModel g) records)).
    { assert (Hin : In e (filter marginEligible (membersOf (brandModel g) records)))
        by (rewrite E; now left).
      now apply filter_In in Hin as [Hin _]. }
    destruct (membersOf (brandModel g) records); [contradiction|simpl; lia].
  - rewrite Hsum. lia.
  - intros Hall. rewrite Hsum, Hceq.
    + apply Heq. intros r Hr. apply uniq_In. now apply in_map.
    + exact Hall.
    + intros k Hk. exact (proj1 (uniq_In _ _) Hk).
Qed.

Lemma aggregateData_counts_witness :
  list_sum (map count (aggregateData [swiftDated; swift2019])) = 2%nat.
Proof.
  refine (proj2 (proj2 (proj2 (aggregateData_counts [swiftDated; swift2019]))) _).
  intros r [<-|[<-|[]]]; reflexivity.
Defined.

Lemma list_sum_filter_le {A : Type} (f : A -> nat) (p : A -> bool) (l : list A) :
  (list_sum (map f (filter p l)) <= list_sum (map f l))%nat.
Proof.
  induction l as [|x l IH]; simpl; [lia|]. destruct (p x); simpl; lia.
Qed.

(** X10: the number of transactions reported in the brand-average
    description is at most 50 and at most the number of relevant
    records of the ledger. *)
Theorem brand_average_count (allRecords : list HistoricalRecord)
    (targetCar : TargetVehicle) :
  let selected := smartFilter allRecords targetCar 50 in
  let brandMatches := brandMatchesOf targetCar (aggregateData selected) in
  (totalCount brandMatches <= 50)%nat
  /\ (totalCount brandMatches
      <= List.length (filter (isRelevant targetCar) allRecords))%nat.
Proof.
  intros selected brandMatches.
  assert (Hsel : List.length selected
                 = Nat.min 50 (List.length (filter (isRelevant targetCar) allRecords))).
  { unfold selected. rewrite smartFilter_firstn by lia.
    rewrite length_firstn.
    now rewrite (Permutation_length (sortBy_perm _ _)). }
  assert (Hle : (totalCount brandMatches <= List.length selected)%nat).
  { rewrite totalCount_sum. unfold brandMatches, brandMatchesOf.
    etransitivity; [apply list_sum_filter_le|].
    pose proof (sortBy_perm (fun a => Z.of_nat (count a)) (unsortedGroups selected)) as Hp.
    rewrite <- aggregateData_eq in Hp.
    assert (Hsum : list_sum (map count (aggregateData selected))
                   = list_sum (map count (unsortedGroups selected))).
    { clear -Hp. induction Hp; simpl; lia. }
    rewrite Hsum. unfold unsortedGroups. rewrite groupRecords_eq.
    etransitivity; [apply unsortedGroups_counts|].
    apply members_total, uniq_NoDup. }
  lia.
Qed.

Lemma yearsOf_In (members : list HistoricalRecord) (y : string) :
  In y (yearsOf members)
  <-> y <> EmptyString /\ exists r, In r members /\ year r = Some y.
Proof.
  unfold yearsOf. rewrite uniq_In, in_flat_map. split.
  - intros (r & Hr & Hy). destruct (year r) as [y'|] eqn:E; [|contradiction].
    destruct y' as [|c y']; simpl in Hy; [contradiction|].
    destruct Hy as [<-|[]]. split; [discriminate|]. now exists r.
  - intros (Hne & r & Hr & E). exists r. split; [exact Hr|]. rewrite E.
    destruct y; [now elim Hne|now left].
Qed.

(** X11: the years of a group are the non-empty years of the records
    of its key, each listed once. *)
Theorem aggregateData_years (records : list HistoricalRecord) (g : AggregatedData) :
  In g (aggregateData records) ->
  NoDup (years g)
  /\ (forall y, In y (years g)
                <-> y <> EmptyString
                    /\ exists r, In r records /\ groupKey r = brandModel g
                                 /\ year r = Some y).
Proof.
  intros Hg. apply aggregateData_In, unsortedGroups_In in Hg as (_ & _ & ->).
  cbn [years brandModel]. split; [apply uniq_NoDup|].
  intros y. rewrite yearsOf_In. split.
  - intros (Hne & r & Hr & E). apply membersOf_In in Hr as [Hr Hk].
    split; [exact Hne|]. now exists r.
  - intros (Hne & r & Hr & Hk & E). split; [exact Hne|].
    exists r. split; [now apply membersOf_In|exact E].
Qed.

Lemma aggregateData_years_witness :
  NoDup (years (mkAggregated "Maruti Swift" 2 (marginOf swift2018) ["2018"; "2020"])).
Proof.
  refine (proj1 (aggregateData_years [swift2018; swiftSoldZero] _ _)).
  vm_compute. now left.
Defined.

(** ** The sensitivity checker on the composer's own output *)

Lemma allStr_impl (p q : ascii -> bool) (s : string) :
  (forall c, p c = true -> q c = true) -> allStr p s = true -> allStr q s = true.
Proof.
  intros Hpq. induction s as [|c s IH]; [reflexivity|]. simpl. intros H.
  apply andb_true_iff in H as [Hc Hs]. now rewrite (Hpq c Hc), IH.
Qed.

Lemma digit_not_terminator (c : ascii) :
  JS.isDigit c = true -> negb (JS.isLineTerminator c) = true.
Proof.
  unfold JS.isDigit, JS.between, JS.isLineTerminator. intros H.
  apply andb_true_iff in H as [H1 H2].
  apply N.leb_le in H1. apply negb_true_iff, orb_false_iff.
  split; apply N.eqb_neq; lia.
Qed.

Lemma digits_plain (s : string) :
  allStr JS.isDigit s = true ->
  allStr (fun c => negb (JS.isLineTerminator c)) s = true.
Proof. apply allStr_impl, digit_not_terminator. Qed.

Lemma stripZerosEnd_allStr (p : ascii -> bool) (s : string) :
  allStr p s = true -> allStr p (JS.stripZerosEnd s) = true.
Proof.
  induction s as [|c s IH]; [reflexivity|]. simpl. intros H.
  apply andb_true_iff in H as [Hc Hs]. specialize (IH Hs).
  destruct (JS.stripZerosEnd s) as [|c' r].
  - destruct (Ascii.eqb c "0"); simpl; [reflexivity|now rewrite Hc].
  - simpl in *. now rewrite Hc.
Qed.

Lemma showNat_digits (n : nat) : allStr JS.isDigit (JS.showNat n) = true.
Proof.
  unfold JS.showNat, NilZero.string_of_uint.
  destruct (Nat.to_uint n); try reflexivity; apply string_of_uint_digits.
Qed.

Lemma showNat_first (n : nat) :
  exists d rest, JS.showNat n = String d rest /\ JS.isDigit d = true.
Proof.
  pose proof (showNat_digits n) as H.
  assert (Hne : JS.showNat n <> EmptyString).
  { unfold JS.showNat, NilZero.string_of_uint.
    destruct (Nat.to_uint n); simpl; discriminate. }
  destruct (JS.showNat n) as [|d rest]; [now elim Hne|].
  simpl in H. apply andb_true_iff in H as [Hd _]. now exists d, rest.
Qed.

Lemma fixedDigits_plain (n : Z) (f : nat) :
  allStr (fun c => negb (JS.isLineTerminator c)) (JS.fixedDigits n f) = true.
Proof.
  destruct f as [|f'].
  - unfold JS.fixedDigits. apply digits_plain.
    now rewrite allStr_append, zeros_digits, showZ_digits.
  - destruct (fixedDigits_shape n (S f') ltac:(lia)) as (a & b & -> & _ & _ & Ha & Hb).
    rewrite !allStr_append, (digits_plain _ Ha), (digits_plain _ Hb). reflexivity.
Qed.

Lemma toStringLarge_plain (X : Z) (x : float) :
  allStr (fun c => negb (JS.isLineTerminator c)) (JS.toStringLarge X x) = true.
Proof.
  unfold JS.toStringLarge.
  set (v := JS.showZ _). set (e := JS.showNat _).
  pose proof (stripZerosEnd_allStr _ v (showZ_digits _)) as Hv.
  pose proof (digits_plain _ (showNat_digits (String.length v - 1))) as He.
  fold e in He.
  destruct (JS.stripZerosEnd v) as [|d [|d' ds]]; [reflexivity| |].
  - apply digits_plain in Hv. rewrite !allStr_append, Hv, He. reflexivity.
  - apply digits_plain in Hv. simpl in Hv.
    apply andb_true_iff in Hv as [Hd Hds].
    rewrite !allStr_append, He. simpl. rewrite Hd. simpl in Hds. rewrite Hds.
    reflexivity.
Qed.

(** [toFixed] never writes a line terminator. *)
Lemma toFixed_plain (x : float) (f : nat) :
  allStr (fun c => negb (JS.isLineTerminator c)) (JS.toFixed x f) = true.
Proof.
  unfold JS.toFixed. destruct (Prim2SF x) as [sg|sg| |sg m e].
  - apply fixedDigits_plain.
  - destruct sg; reflexivity.
  - reflexivity.
  - cbv zeta.
    destruct (10 ^ 21 * (if 0 <=? e then 1 else 2 ^ (- e))
              <=? (if 0 <=? e then Z.pos m * 2 ^ e else Z.pos m));
      rewrite allStr_append, ?toStringLarge_plain, ?fixedDigits_plain;
      destruct sg; reflexivity.
Qed.

Lemma concat_In (sep x : string) (l : list string) :
  In x l -> exists pre post, String.concat sep l = pre ++ x ++ post.
Proof.
  induction l as [|y l IH]; [contradiction|]. intros [->|Hin].
  - destruct l as [|z l]; simpl.
    + exists "", "". now rewrite append_nil_r.
    + exists "", (sep ++ String.concat sep (z :: l)). reflexivity.
  - destruct (IH Hin) as (pre & post & E). destruct l as [|z l]; [contradiction|].
    change (String.concat sep (y :: z :: l))
      with (y ++ sep ++ String.concat sep (z :: l)).
    exists (y ++ sep ++ pre), post.
    rewrite E, !append_assoc. reflexivity.
Qed.

Lemma containsSensitiveData_inside (pre text post : string) :
  containsSensitiveData text = true ->
  containsSensitiveData (pre ++ text ++ post) = true.
Proof.
  unfold containsSensitiveData. rewrite !existsb_exists.
  intros (pattern & Hin & Ht). exists pattern. split; [exact Hin|].
  apply RegexFacts.test_spec in Ht as (a & m & b & -> & Hm).
  apply RegexFacts.test_spec. exists (pre ++ a), m, (b ++ post).
  split; [now rewrite !append_assoc|exact Hm].
Qed.

Lemma averageLine_sensitive (margins : list float) :
  containsSensitiveData (averageLine margins) = true.
Proof.
  unfold containsSensitiveData. apply existsb_exists.
  exists (keywordPattern "margin"). split; [simpl; tauto|].
  apply test_keyword; [reflexivity|].
  destruct (showNat_first (List.length margins)) as (d & rest & E & Hd).
  exists "AVERAGE ", "MARGIN",
    (" for this model: " ++ JS.toFixed (average margins) 1 ++ "% over "),
    d, (rest ++ " transactions.").
  split; [|split; [reflexivity|split; [exact Hd|]]].
  - unfold averageLine. rewrite E. cbn [append]. rewrite !append_assoc.
    reflexivity.
  - rewrite !allStr_append, toFixed_plain. reflexivity.
Qed.

(** X12: whenever the report carries an average-margin line, that is,
    whenever one of the first 50 exact matches of the ledger has both
    prices truthy, the sensitivity checker answers true on the
    sanitizer's own insights. *)
Theorem sanitize_output_flagged (csvData : string) (targetCar : TargetVehicle) :
  filter hasBothPrices
    (firstn 50 (filter (isExactMatch targetCar) (parseCSV csvData))) <> [] ->
  containsSensitiveData (insights (sanitizeHistoricalData csvData targetCar)) = true.
Proof.
  intros Hpriced.
  set (exactAll := filter (isExactMatch targetCar) (parseCSV csvData)) in *.
  assert (Hne : exactAll <> []).
  { intros E. rewrite E in Hpriced. now destruct (50%nat). }
  assert (Hall : parseCSV csvData <> []).
  { intros E. apply Hne. unfold exactAll. now rewrite E. }
  assert (Hsel : filter (isExactMatch targetCar)
                   (smartFilter (parseCSV csvData) targetCar 50)
                 = firstn 50 exactAll).
  { apply (smartFilter_exact_eq (parseCSV csvData) targetCar 50). lia. }
  assert (Hne' : firstn 50 exactAll <> []).
  { destruct exactAll; [now elim Hne|discriminate]. }
  rewrite (sanitize_compose _ _ Hall).
  pose proof (compose_exact (parseCSV csvData) targetCar) as Hc.
  cbv zeta in Hc. rewrite Hsel in Hc. rewrite (Hc Hne'). cbn [insights fst].
  destruct (filter hasBothPrices (firstn 50 exactAll)) as [|q qs] eqn:E;
    [now elim Hpriced|].
  set (line := averageLine (map marginOf (q :: qs))).
  unfold JS.join.
  match goal with
  | |- containsSensitiveData (String.concat newline ?l) = true =>
      destruct (concat_In newline line l) as (pre & post & ->)
  end.
  - right. apply in_or_app. right. now left.
  - apply containsSensitiveData_inside, averageLine_sensitive.
Qed.

Lemma sanitize_output_flagged_witness :
  containsSensitiveData (insights (sanitizeHistoricalData ledger1 marutiSwift)) = true.
Proof.
  apply sanitize_output_flagged. vm_compute. discriminate.
Defined.

(** ** The cache key *)

Lemma cache_examples :
  Cache.parseInt "45000" = Some 45000
  /\ Cache.parseInt "  -12 km" = Some (-12)
  /\ Cache.parseInt "45,000" = Some 45
  /\ Cache.parseInt "0x1F" = Some 31
  /\ Cache.parseInt "0x" = None
  /\ Cache.parseInt "07" = Some 7
  /\ Cache.parseInt "0" = Some 0
  /\ Cache.parseInt "about 30000" = None
  /\ Cache.parseInt "" = None
  /\ Cache.replaceRuns false "Maruti   Suzuki  " = "Maruti_Suzuki_"
  /\ Cache.generateCacheKey (Cache.mkCar "Maruti Suzuki" "Swift" "2018" "45000" "Petrol")
     = "valuation_cache_maruti_suzuki_swift_2018_40-60k_petrol".
Proof. repeat split. Qed.

Lemma toLowerCase_append (a b : string) :
  JS.toLowerCase (a ++ b) = JS.toLowerCase a ++ JS.toLowerCase b.
Proof.
  unfold JS.toLowerCase. induction a as [|c a IH]; [reflexivity|].
  simpl. now rewrite IH.
Qed.









Lemma takeDigits_append (ds rest : string) :
  allStr JS.isDigit ds = true -> endsNumber rest = true ->
  fst (JS.takeDigits (ds ++ rest)) = digitsOf ds.
Proof.
  intros Hd Hr. induction ds as [|c ds IH]; simpl.
  - destruct rest as [|x rest]; [reflexivity|]. simpl in *.
    apply andb_true_iff in Hr as [Hx _]. apply negb_true_iff in Hx.
    now rewrite Hx.
  - simpl in Hd. apply andb_true_iff in Hd as [Hc Hs]. rewrite Hc.
    specialize (IH Hs). destruct (JS.takeDigits (ds ++ rest)) as [l r].
    simpl in *. unfold digitsOf. simpl. now rewrite IH.
Qed.

Lemma digit_not_space (c : ascii) : JS.isDigit c = true -> JS.isWhiteSpace c = false.
Proof.
  unfold JS.isDigit, JS.isWhiteSpace, JS.between. intros H.
  apply andb_true_iff in H as [H1 H2].
  apply N.leb_le in H1. apply N.leb_le in H2.
  apply orb_false_iff. split.
  - apply andb_false_iff. right. apply N.leb_gt. lia.
  - apply N.eqb_neq. lia.
Qed.

Lemma digit_code (c : ascii) :
  JS.isDigit c = true -> (48 <= JS.code c <= 57)%N.
Proof.
  unfold JS.isDigit, JS.between. intros H.
  apply andb_true_iff in H as [H1 H2].
  apply N.leb_le in H1. apply N.leb_le in H2. lia.
Qed.

Lemma parseInt_digits (c : ascii) (ds rest : string) :
  allStr JS.isDigit (String c ds) = true -> endsNumber rest = true ->
  Cache.parseInt (String c ds ++ rest) = Some (JS.digitsValue (digitsOf (String c ds))).
Proof.
  intros Hd Hr. pose proof (takeDigits_append (String c ds) rest Hd Hr) as Ht.
  pose proof Hd as Hd'. simpl in Hd'. apply andb_true_iff in Hd' as [Hc Hs].
  unfold Cache.parseInt.
  assert (Etrim : JS.trimStart (String c ds ++ rest) = String c ds ++ rest).
  { simpl. now rewrite (digit_not_space c Hc). }
  rewrite Etrim.
  assert (Esign : JS.takeSign (String c ds ++ rest) = (false, String c ds ++ rest)).
  { pose proof (digit_code c Hc) as Hcode. simpl.
    destruct c as [[] [] [] [] [] [] [] []]; try reflexivity;
      vm_compute in Hcode; exfalso; destruct Hcode as [A B]; try (now apply A); now apply B. }
  rewrite Esign.
  assert (Hne : digitsOf (String c ds) <> []) by (unfold digitsOf; simpl; discriminate).
  remember (String c ds ++ rest) as s0 eqn:Es0.
  assert (Hgen : match fst (JS.takeDigits s0) with
                 | [] => None
                 | _ :: _ => Some (1 * JS.digitsValue (fst (JS.takeDigits s0)))
                 end = Some (JS.digitsValue (digitsOf (String c ds)))).
  { rewrite Ht. destruct (digitsOf (String c ds)) as [|z l]; [congruence|].
    f_equal. lia. }
  destruct s0 as [|a s1]; [exact Hgen|].
  destruct s1 as [|x s2].
  - destruct a as [[] [] [] [] [] [] [] []]; exact Hgen.
  - simpl in Es0. injection Es0 as Ea Es1. subst a.
    assert (Hnx : Ascii.eqb (JS.lowerChar x) "x" = false).
    { destruct ds as [|d ds].
      - simpl in Es1. subst rest. simpl in Hr.
        apply andb_true_iff in Hr as [_ Hr]. now apply negb_true_iff in Hr.
      - simpl in Es1. injection Es1 as Ed _. subst d.
        simpl in Hs. apply andb_true_iff in Hs as [Hx' _].
        pose proof (digit_code x Hx') as Hcode.
        destruct x as [[] [] [] [] [] [] [] []]; try reflexivity;
          vm_compute in Hcode; exfalso; destruct Hcode as [A B];
          try (now apply A); now apply B. }
    destruct c as [[] [] [] [] [] [] [] []];
      try (exfalso; clear - Hc; vm_compute in Hc; discriminate Hc);
      cbv beta iota zeta; try rewrite Hnx; rewrite Ht;
      first [ f_equal; lia
            | destruct (digitsOf _) as [|z l]; [congruence | f_equal; lia] ].
Qed.


(** X14: the mileage of a cache key is read through its leading digits
    only: when [kmDriven] starts with a digit, whatever follows the
    digits (a thousands separator, a unit, a decimal part) is dropped,
    the number read is that of the digits, and the key is the key of the
    car whose mileage is the digits alone. *)
Theorem kmDriven_leading_digits (c : ascii) (ds rest brand model year fuel : string) :
  allStr JS.isDigit (String c ds) = true ->
  endsNumber rest = true ->
  Cache.parseInt (String c ds ++ rest) = Some (JS.digitsValue (digitsOf (String c ds)))
  /\ Cache.generateCacheKey (Cache.mkCar brand model year (String c ds ++ rest) fuel)
     = Cache.generateCacheKey (Cache.mkCar brand model year (String c ds) fuel).
Proof.
  intros Hd Hr.
  pose proof (parseInt_digits c ds rest Hd Hr) as H1.
  pose proof (parseInt_digits c ds "" Hd eq_refl) as H2.
  rewrite append_nil_r in H2.
  split; [exact H1|].
  unfold Cache.generateCacheKey. cbn [Cache.car_kmDriven]. now rewrite H1, H2.
Qed.

Lemma kmDriven_leading_digits_witness :
  Cache.parseInt "45,000 km" = Some 45
  /\ Cache.generateCacheKey (Cache.mkCar "Maruti" "Swift" "2018" "45,000 km" "Petrol")
     = Cache.generateCacheKey (Cache.mkCar "Maruti" "Swift" "2018" "45" "Petrol").
Proof.
  exact (kmDriven_leading_digits "4" "5" ",000 km" "Maruti" "Swift" "2018" "Petrol"
           eq_refl eq_refl).
Defined.



(** ** The five-field parser *)

Lemma compact_assignCell_steps (header : string) (value : option string)
    (r : HistoricalRecord) :
  Compact.assignCell header value r
  = when (JS.includes header "sold" || JS.includes header "sale") (setSold value)
      (when (JS.includes header "bought" || JS.includes header "purchase")
         (setBought value)
         (when (JS.includes header "year") (setYear value)
            (when (JS.includes header "model") (setModel value)
               (when (JS.includes header "brand") (setBrand value) r)))).
Proof. reflexivity. Qed.

Lemma compact_assignCell_forget (header : string) (value : option string)
    (r : HistoricalRecord) :
  Compact.assignCell header value (forget r) = forget (assignCell header value r).
Proof.
  rewrite compact_assignCell_steps. assignCell_cases header; reflexivity.
Qed.

Lemma compact_assignCells_forget (headers : list string) (values : list string) :
  forall index r,
    Compact.assignCells headers index values (forget r)
    = forget (assignCells headers index values r).
Proof.
  induction headers as [|header rest IH]; intros index r; [reflexivity|].
  cbn [Compact.assignCells assignCells].
  now rewrite compact_assignCell_forget, IH.
Qed.

Lemma compact_parseCSV_forget (csvData : string) :
  Compact.parseCSV csvData = map forget (parseCSV csvData).
Proof.
  unfold Compact.parseCSV, parseCSV.
  destruct (negb (JS.truthyStr (JS.trim csvData))); [reflexivity|].
  destruct (JS.split JS.LF (JS.trim csvData)) as [|header [|row rows]];
    try reflexivity.
  cbv zeta. rewrite map_map. apply map_ext. intros line.
  unfold Compact.parseLine, parseLine. cbv zeta.
  apply (compact_assignCells_forget _ _ 0%nat emptyRecord).
Qed.

(** ** Summaries that do not see the prices *)

Section Blind.

Variable h : HistoricalRecord -> HistoricalRecord.
Hypothesis h_brand : forall r, brand (h r) = brand r.
Hypothesis h_model : forall r, model (h r) = model r.
Hypothesis h_year : forall r, year (h r) = year r.
Hypothesis h_eligible : forall r, marginEligible (h r) = marginEligible r.
Hypothesis h_margin : forall r, marginEligible r = true -> marginOf (h r) = marginOf r.

Lemma blind_relevance (r : HistoricalRecord) (t : TargetVehicle) :
  calculateRelevance (h r) t = calculateRelevance r t.
Proof. unfold calculateRelevance. now rewrite h_brand, h_model. Qed.

Lemma blind_smartFilter (records : list HistoricalRecord) (t : TargetVehicle)
    (maxRecords : Z) :
  smartFilter (map h records) t maxRecords = map h (smartFilter records t maxRecords).
Proof.
  rewrite !smartFilter_eq, filter_map_comm.
  rewrite (filter_ext (fun x => 0 <? calculateRelevance (h x) t)
             (fun x => 0 <? calculateRelevance x t))
    by (intros x; now rewrite blind_relevance).
  rewrite (sortBy_map (fun r => calculateRelevance r t))
    by (intros x; apply blind_relevance).
  apply slice0_map.
Qed.

Lemma blind_groupKey (r : HistoricalRecord) : groupKey (h r) = groupKey r.
Proof. unfold groupKey. now rewrite h_brand, h_model. Qed.

Lemma blind_margins (records : list HistoricalRecord) :
  map marginOf (filter marginEligible (map h records))
  = map marginOf (filter marginEligible records).
Proof.
  rewrite filter_map_comm, map_map.
  rewrite (filter_ext _ marginEligible) by apply h_eligible.
  apply map_ext_in. intros r Hr. apply filter_In in Hr as [_ He].
  now apply h_margin.
Qed.

Lemma blind_years (records : list HistoricalRecord) :
  yearsOf (map h records) = yearsOf records.
Proof.
  unfold yearsOf. f_equal.
  induction records as [|r rs IH]; [reflexivity|]. simpl. now rewrite IH, h_year.
Qed.

Lemma blind_members (key : string) (records : list HistoricalRecord) :
  membersOf key (map h records) = map h (membersOf key records).
Proof.
  unfold membersOf. rewrite filter_map_comm. f_equal.
  apply filter_ext. intros r. now rewrite blind_groupKey.
Qed.

Lemma blind_aggregateData (records : list HistoricalRecord) :
  aggregateData (map h records) = aggregateData records.
Proof.
  rewrite !aggregateData_eq. f_equal.
  unfold unsortedGroups. rewrite !groupRecords_eq.
  unfold firstSeenKeys. rewrite map_map.
  rewrite (map_ext (fun x => groupKey (h x)) groupKey) by apply blind_groupKey.
  induction (JS.uniq (map groupKey records)) as [|k ks IH]; [reflexivity|].
  cbn [map flat_map]. rewrite IH. f_equal.
  unfold aggregateGroup. cbn [fst snd].
  now rewrite blind_members, blind_margins, blind_years, length_map.
Qed.

Lemma blind_compact (records : list HistoricalRecord) (t : TargetVehicle) :
  Compact.summarize (map h records) t = Compact.summarize records t.
Proof.
  unfold Compact.summarize.
  rewrite blind_smartFilter, blind_aggregateData.
  unfold Compact.databaseLine. now rewrite length_map.
Qed.

Lemma blind_similar (t : TargetVehicle) (r : HistoricalRecord) :
  Plain.similar t (h r) = Plain.similar t r.
Proof. unfold Plain.similar, Plain.lowerModel. now rewrite h_brand, h_model. Qed.

Lemma blind_presentYears (records : list HistoricalRecord) :
  Plain.presentYears (map h records) = Plain.presentYears records.
Proof.
  unfold Plain.presentYears.
  induction records as [|r rs IH]; [reflexivity|]. simpl. now rewrite IH, h_year.
Qed.

Lemma blind_plain (records : list HistoricalRecord) (t : TargetVehicle) :
  Plain.summarize (map h records) t = Plain.summarize records t.
Proof.
  unfold Plain.summarize. cbv zeta.
  rewrite !filter_map_comm.
  rewrite (filter_ext (fun x => Plain.similar t (h x)) (Plain.similar t))
    by apply blind_similar.
  rewrite (filter_ext (fun x => Plain.isSameBrand t (h x)) (Plain.isSameBrand t))
    by (intros x; unfold Plain.isSameBrand; now rewrite h_brand).
  unfold Plain.databaseLine. rewrite length_map.
  destruct (filter (Plain.similar t) records) as [|s ss] eqn:E.
  - cbn [map]. unfold Plain.sameBrandLines.
    destruct (filter (Plain.isSameBrand t) records) as [|b bs]; [reflexivity|].
    cbn [map]. change (h b :: map h bs) with (map h (b :: bs)).
    now rewrite length_map.
  - cbn [map]. change (h s :: map h ss) with (map h (s :: ss)).
    rewrite <- filter_map_comm.
    rewrite blind_margins, blind_presentYears.
    unfold Plain.foundLine. now rewrite length_map.
Qed.

End Blind.

(** X16: the parser of the compact and of the plain sanitizer, which
    knows no variant and no date column, reads every ledger as the full
    parser does with those two fields left out; the scorer, the
    selector and the aggregator never look at the two fields, so the
    compact summary and the plain sanitizer's summary can be computed
    from the full parse. *)
Theorem compact_parseCSV_agrees (csvData : string) (targetCar : TargetVehicle) :
  Compact.parseCSV csvData = map forget (parseCSV csvData)
  /\ List.length (Compact.parseCSV csvData) = List.length (parseCSV csvData)
  /\ aggregateData (smartFilter (Compact.parseCSV csvData) targetCar 50)
     = aggregateData (smartFilter (parseCSV csvData) targetCar 50)
  /\ Compact.summarize (Compact.parseCSV csvData) targetCar
     = Compact.summarize (parseCSV csvData) targetCar
  /\ Plain.summarize (Plain.parseCSV csvData) targetCar
     = Plain.summarize (parseCSV csvData) targetCar.
Proof.
  unfold Plain.parseCSV. rewrite compact_parseCSV_forget.
  split; [reflexivity|]. split; [apply length_map|]. split; [|split].
  - rewrite (blind_smartFilter forget) by reflexivity.
    apply (blind_aggregateData forget); reflexivity.
  - apply (blind_compact forget); reflexivity.
  - apply (blind_plain forget); reflexivity.
Qed.

(** X17: the two text summaries do not see the prices themselves: a
    change of the records that keeps brand, model and year, keeps which
    records are eligible for a margin and keeps the margin of the
    eligible ones changes neither the aggregated groups nor the summary
    of the compact sanitizer nor that of the first one. *)
Theorem summaries_blind (h : HistoricalRecord -> HistoricalRecord)
    (records : list HistoricalRecord) (targetCar : TargetVehicle) :
  (forall r, brand (h r) = brand r) ->
  (forall r, model (h r) = model r) ->
  (forall r, year (h r) = year r) ->
  (forall r, marginEligible (h r) = marginEligible r) ->
  (forall r, marginEligible r = true -> marginOf (h r) = marginOf r) ->
  aggregateData (map h records) = aggregateData records
  /\ Compact.summarize (map h records) targetCar = Compact.summarize records targetCar
  /\ Plain.summarize (map h records) targetCar = Plain.summarize records targetCar.
Proof.
  intros Hb Hm Hy He Hmargin. split; [|split].
  - now apply blind_aggregateData.
  - now apply blind_compact.
  - now apply blind_plain.
Qed.

Lemma summaries_blind_witness :
  Compact.summarize (map forget [swiftDated; swift2019]) marutiSwift
  = Compact.summarize [swiftDated; swift2019] marutiSwift.
Proof.
  refine (proj1 (proj2 (summaries_blind forget [swiftDated; swift2019] marutiSwift
                          _ _ _ _ _)));
    intros; reflexivity.
Defined.

(** ** The compact summary *)

Lemma compact_parseCSV_nil (csvData : string) :
  Compact.parseCSV csvData = [] <-> parseCSV csvData = [].
Proof.
  rewrite compact_parseCSV_forget.
  destruct (parseCSV csvData); simpl; split; congruence.
Qed.




Lemma includes_of_prefix (s sub : string) :
  prefix sub s = true -> JS.includes s sub = true.
Proof. intros H. destruct s; cbn [JS.includes]; now rewrite H. Qed.

Lemma includes_empty (s : string) : JS.includes s "" = true.
Proof. apply includes_of_prefix. now destruct s. Qed.

Lemma prefix_append (s post : string) : prefix s (s ++ post) = true.
Proof.
  induction s as [|c s IH]; simpl; [now destruct post|].
  destruct (ascii_dec c c) as [_|n]; [exact IH|now elim n].
Qed.

Lemma includes_skip (pre s sub : string) :
  JS.includes s sub = true -> JS.includes (pre ++ s) sub = true.
Proof.
  intros H. induction pre as [|c pre IH]; [exact H|].
  simpl. rewrite IH. apply orb_true_r.
Qed.

Lemma includes_inside (pre s post : string) :
  JS.includes (pre ++ s ++ post) s = true.
Proof. apply includes_skip, includes_of_prefix, prefix_append. Qed.

Lemma lower_orUnknown_includes (o : option string) (target pre post : string) :
  JS.lowerEq o target = true ->
  JS.includes (pre ++ JS.toLowerCase (orUnknown o) ++ post) (JS.toLowerCase target) = true.
Proof.
  destruct o as [x|]; [|discriminate]. simpl. intros H.
  apply String.eqb_eq in H. rewrite <- H.
  destruct x as [|c x]; [apply includes_empty|]. cbn [JS.truthyStr].
  apply includes_inside.
Qed.

(** The group of an exact match carries the target's brand and model in
    its name. *)
Lemma exact_group_matches (targetCar : TargetVehicle) (r : HistoricalRecord)
    (a : AggregatedData) :
  isExactMatch targetCar r = true -> brandModel a = groupKey r ->
  Compact.matchesTarget targetCar a = true.
Proof.
  unfold isExactMatch, Compact.matchesTarget, groupKey. intros H ->.
  apply andb_true_iff in H as [Hb Hm].
  rewrite !toLowerCase_append. change (JS.toLowerCase " ") with " ".
  apply andb_true_iff. split.
  - apply (lower_orUnknown_includes _ _ "" _ Hb).
  - rewrite <- (append_nil_r (JS.toLowerCase (orUnknown (model r)))).
    rewrite <- append_assoc.
    apply (lower_orUnknown_includes _ _ _ "" Hm).
Qed.

Lemma find_In_true {A : Type} (p : A -> bool) (l : list A) (x : A) :
  In x l -> p x = true -> exists y, find p l = Some y /\ In y l /\ p y = true.
Proof.
  intros Hin Hp. destruct (find p l) as [y|] eqn:E.
  - exists y. destruct (find_some _ _ E) as [Hy Hpy]. now repeat split.
  - rewrite (find_none _ _ E x Hin) in Hp. discriminate.
Qed.

(** X19: when one of the first 50 exact matches of the ledger is
    eligible for a margin, the compact summary reports a group: the
    first group, by descending size, whose name contains the target's
    brand and its model, with its size, its average margin, the
    profitability sentence and its years; the sentences for no match
    and for a brand without match are not written. *)
Theorem compact_reports_group (allRecords : list HistoricalRecord)
    (targetCar : TargetVehicle) :
  filter marginEligible (firstn 50 (filter (isExactMatch targetCar) allRecords)) <> [] ->
  exists g,
    find (Compact.matchesTarget targetCar)
      (aggregateData (smartFilter allRecords targetCar 50)) = Some g
    /\ In g (aggregateData (smartFilter allRecords targetCar 50))
    /\ Compact.matchesTarget targetCar g = true
    /\ (1 <= count g <= 50)%nat
    /\ Compact.summarize allRecords targetCar
       = (Compact.databaseLine allRecords :: Compact.groupLine g
            :: Compact.profitLine (avgMargin g) :: Compact.yearsLine (years g))%list.
Proof.
  intros Hne.
  set (sel := smartFilter allRecords targetCar 50).
  assert (Hr : exists r, In r sel /\ isExactMatch targetCar r = true
                         /\ marginEligible r = true).
  { destruct (filter marginEligible
                (firstn 50 (filter (isExactMatch targetCar) allRecords)))
      as [|r rs] eqn:E; [now elim Hne|].
    assert (Hin : In r (filter marginEligible
                          (firstn 50 (filter (isExactMatch targetCar) allRecords))))
      by (rewrite E; now left).
    apply filter_In in Hin as [Hin He].
    change 50%nat with (Z.to_nat 50) in Hin.
    rewrite <- (smartFilter_exact_eq allRecords targetCar 50) in Hin by lia.
    apply filter_In in Hin as [Hin Hx]. now exists r. }
  destruct Hr as (r & Hin & Hx & He).
  set (members := membersOf (groupKey r) sel).
  set (g0 := mkAggregated (groupKey r) (List.length members)
               (average (map marginOf (filter marginEligible members)))
               (yearsOf members)).
  assert (Hg0 : In g0 (aggregateData sel)).
  { apply aggregateData_In, unsortedGroups_In. cbn [brandModel g0].
    split; [now apply in_map|]. split; [|reflexivity].
    assert (Hm : In r (filter marginEligible (membersOf (groupKey r) sel))).
    { apply filter_In. split; [|exact He]. now apply membersOf_In. }
    intros E. rewrite E in Hm. contradiction. }
  destruct (find_In_true (Compact.matchesTarget targetCar) _ g0 Hg0
              (exact_group_matches targetCar r g0 Hx eq_refl))
    as (g & Hfind & Hg & Hmatch).
  exists g. split; [exact Hfind|]. split; [exact Hg|]. split; [exact Hmatch|]. split.
  - apply aggregateData_In, unsortedGroups_In in Hg as (_ & Hel & Eg).
    rewrite Eg. cbn [count]. split.
    + destruct (membersOf (brandModel g) sel); [now elim Hel|simpl; lia].
    + unfold membersOf.
      pose proof (filter_length_bound
                    (fun r0 => (groupKey r0 =? brandModel g)%string) sel) as Hle.
      assert (Hsel : (List.length sel <= 50)%nat).
      { unfold sel. rewrite smartFilter_firstn by lia.
        rewrite length_firstn. change (Z.to_nat 50) with 50%nat. lia. }
      lia.
  - unfold Compact.summarize. cbv zeta. fold sel. rewrite Hfind.
    destruct (aggregateData sel); [contradiction|reflexivity].
Qed.

Lemma compact_reports_group_witness :
  exists g,
    find (Compact.matchesTarget marutiSwift)
      (aggregateData (smartFilter [swiftDated; swift2019] marutiSwift 50)) = Some g
    /\ In g (aggregateData (smartFilter [swiftDated; swift2019] marutiSwift 50))
    /\ Compact.matchesTarget marutiSwift g = true
    /\ (1 <= count g <= 50)%nat
    /\ Compact.summarize [swiftDated; swift2019] marutiSwift
       = (Compact.databaseLine [swiftDated; swift2019] :: Compact.groupLine g
            :: Compact.profitLine (avgMargin g) :: Compact.yearsLine (years g))%list.
Proof.
  apply (compact_reports_group [swiftDated; swift2019] marutiSwift).
  vm_compute. discriminate.
Defined.

(** ** The plain sanitizer *)

Lemma plain_brand_similar (targetCar : TargetVehicle) (r : HistoricalRecord) :
  Plain.isSameBrand targetCar r = true -> Plain.similar targetCar r = true.
Proof. unfold Plain.isSameBrand, Plain.similar. now intros ->. Qed.

(** X20: in the plain sanitizer the sentence "You have N transactions
    with <brand> vehicles." is never written: it is guarded by there
    being no similar record, and a record of the target's brand is
    similar.  Without a similar record the summary is the database
    sentence and the sentence "No direct matches ...", nothing else. *)
Theorem plain_same_brand_unreachable (records : list HistoricalRecord)
    (targetCar : TargetVehicle) :
  filter (Plain.similar targetCar) records = [] ->
  filter (Plain.isSameBrand targetCar) records = []
  /\ Plain.summarize records targetCar
     = [Plain.databaseLine records; Plain.noDirectLine targetCar].
Proof.
  intros Hsim.
  assert (Hsame : filter (Plain.isSameBrand targetCar) records = []).
  { apply filter_none. intros r Hr.
    destruct (Plain.isSameBrand targetCar r) eqn:E; [|reflexivity].
    assert (Hin : In r (filter (Plain.similar targetCar) records)).
    { apply filter_In. split; [exact Hr|now apply plain_brand_similar]. }
    rewrite Hsim in Hin. contradiction. }
  split; [exact Hsame|].
  unfold Plain.summarize. cbv zeta. now rewrite Hsim, Hsame.
Qed.

Lemma plain_same_brand_unreachable_witness :
  Plain.summarize [hondaCivic] marutiSwift
  = [Plain.databaseLine [hondaCivic]; Plain.noDirectLine marutiSwift].
Proof.
  exact (proj2 (plain_same_brand_unreachable [hondaCivic] marutiSwift eq_refl)).
Defined.

Lemma plain_similar_no_model (targetCar : TargetVehicle) (r : HistoricalRecord) :
  model r = None \/ model r = Some "" -> Plain.similar targetCar r = true.
Proof.
  unfold Plain.similar, Plain.lowerModel. intros [-> | ->]; cbn [JS.toLowerCase JS.mapStr JS.truthyStr];
    rewrite includes_empty; apply orb_true_r.
Qed.

Lemma plain_similar_empty_target (targetCar : TargetVehicle) (r : HistoricalRecord) :
  target_model targetCar = "" -> Plain.similar targetCar r = true.
Proof.
  unfold Plain.similar, Plain.lowerModel. intros ->.
  change (JS.toLowerCase "") with "".
  destruct (model r) as [m|].
  - rewrite includes_empty, orb_true_r. reflexivity.
  - cbn [JS.includes prefix]. apply orb_true_r.
Qed.

(** X21: what the plain sanitizer calls similar: a record that has no
    model, or an empty one, is similar to every target, whatever its
    brand, and when the target's model is empty every record is
    similar.  So on a ledger without a model column, or for a target
    without a model, all the records are counted as similar and all
    the eligible ones enter the average. *)
Theorem plain_similar_anomaly (records : list HistoricalRecord)
    (targetCar : TargetVehicle) :
  Forall (fun r => model r = None \/ model r = Some "") records
  \/ target_model targetCar = "" ->
  filter (Plain.similar targetCar) records = records
  /\ (records <> [] ->
      Plain.summarize records targetCar
      = (Plain.databaseLine records :: Plain.foundLine targetCar records
           :: Plain.marginLines (map marginOf (filter marginEligible records))
           ++ Plain.yearsLine (Plain.presentYears records))%list).
Proof.
  intros H.
  assert (Hall : filter (Plain.similar targetCar) records = records).
  { apply filter_all. intros r Hr. destruct H as [H|H].
    - rewrite Forall_forall in H. now apply plain_similar_no_model, H.
    - now apply plain_similar_empty_target. }
  split; [exact Hall|]. intros Hne.
  unfold Plain.summarize. cbv zeta. rewrite Hall.
  destruct records; [now elim Hne|reflexivity].
Qed.

Lemma plain_similar_anomaly_witness :
  filter (Plain.similar tataNexon) [marutiNoModel] = [marutiNoModel].
Proof.
  refine (proj1 (plain_similar_anomaly [marutiNoModel] tataNexon _)).
  left. repeat constructor.
Defined.

Lemma marginLine_sensitive (avgMargin : float) :
  isFixedRange avgMargin = true ->
  containsSensitiveData (Plain.marginLine avgMargin) = true.
Proof.
  intros Hr. unfold containsSensitiveData. apply existsb_exists.
  exists (keywordPattern "margin"). split; [simpl; tauto|].
  apply test_keyword; [reflexivity|].
  destruct (toFixed_shape avgMargin 1 Hr ltac:(lia))
    as (sign & a & b & E & Hsign & _ & Ha & Hda & _).
  destruct a as [|d a']; [simpl in Ha; lia|].
  simpl in Hda. apply andb_true_iff in Hda as [Hd _].
  exists "Your historical ", "margin", (" on similar models averages " ++ sign),
    d, (a' ++ "." ++ b ++ "%.").
  split; [|split; [reflexivity|split; [exact Hd|]]].
  - unfold Plain.marginLine. rewrite E.
    repeat first [rewrite append_assoc | progress cbn [append]]. reflexivity.
  - destruct Hsign as [-> | ->]; reflexivity.
Qed.

(** X22: when a similar record of the ledger is eligible for a margin
    and the average margin is written in fixed notation (it is finite
    and below 1e21 in magnitude), the plain sanitizer's own answer is
    flagged by the sensitivity checker: its margin sentence holds the
    word margin and, after it on the same line, the digits of the
    average. *)
Theorem plain_output_flagged (csvData : string) (targetCar : TargetVehicle) :
  filter marginEligible
    (filter (Plain.similar targetCar) (Plain.parseCSV csvData)) <> [] ->
  isFixedRange
    (average (map marginOf
                (filter marginEligible
                   (filter (Plain.similar targetCar) (Plain.parseCSV csvData))))) = true ->
  containsSensitiveData (Plain.sanitizeHistoricalData csvData targetCar) = true.
Proof.
  intros Hne Hr.
  set (records := Plain.parseCSV csvData) in *.
  assert (Hrec : records <> []).
  { intros E. rewrite E in Hne. now apply Hne. }
  assert (Hfull : parseCSV csvData <> []).
  { intros E. apply Hrec. unfold records, Plain.parseCSV.
    now apply compact_parseCSV_nil. }
  destruct (parseCSV_nonempty _ Hfull) as [Ht Htt].
  unfold Plain.sanitizeHistoricalData. rewrite Ht, Htt. cbn [negb orb]. cbv zeta.
  fold records. destruct records as [|r0 rs0] eqn:Erec; [now elim Hrec|].
  rewrite <- Erec in *. clear Erec r0 rs0.
  set (margins := map marginOf
                    (filter marginEligible (filter (Plain.similar targetCar) records))) in *.
  assert (Hin : In (Plain.marginLine (average margins))
                  (Plain.summarize records targetCar)).
  { unfold Plain.summarize. cbv zeta.
    destruct (filter (Plain.similar targetCar) records) as [|s ss] eqn:E;
      [now elim Hne|].
    fold margins. right. right. apply in_or_app. left.
    unfold Plain.marginLines.
    destruct margins as [|m ms] eqn:Em.
    - unfold margins in Em. apply map_eq_nil in Em. now elim Hne.
    - now left. }
  unfold JS.join.
  destruct (concat_In " " _ _ Hin) as (pre & post & ->).
  now apply containsSensitiveData_inside, marginLine_sensitive.
Qed.

Lemma plain_output_flagged_witness :
  containsSensitiveData (Plain.sanitizeHistoricalData ledger1 marutiSwift) = true.
Proof.
  apply (plain_output_flagged ledger1 marutiSwift).
  - vm_compute. discriminate.
  - vm_compute. reflexivity.
Defined.

(** ** The encryption utilities *)

Module SecureFacts.
Import Secure.

Local Open Scope list_scope.
Local Open Scope N_scope.

Lemma list_ind3 {A : Type} (P : list A -> Prop) :
  P [] -> (forall a, P [a]) -> (forall a b, P [a; b]) ->
  (forall a b c rest, P rest -> P (a :: b :: c :: rest)) ->
  forall l, P l.
Proof.
  intros H0 H1 H2 H3 l.
  assert (H : P l /\ (forall a, P (a :: l)) /\ (forall a b, P (a :: b :: l))).
  { induction l as [|x l (IH0 & IH1 & IH2)]; [repeat split; auto|].
    repeat split; auto. }
  apply H.
Qed.

Lemma base64Char_cases (v : N) :
  (v < 26 /\ base64Char v = 65 + v)
  \/ (26 <= v < 52 /\ base64Char v = 71 + v)
  \/ (52 <= v < 62 /\ base64Char v = v - 4)
  \/ (v = 62 /\ base64Char v = 43)
  \/ (62 < v /\ base64Char v = 47).
Proof.
  unfold base64Char.
  destruct (N.ltb_spec v 26); [left; lia|].
  destruct (N.ltb_spec v 52); [right; left; lia|].
  destruct (N.ltb_spec v 62); [right; right; left; lia|].
  destruct (N.eqb_spec v 62); [right; right; right; left; lia|].
  right; right; right; right; lia.
Qed.

Lemma base64Char_value (v : N) : v < 64 -> base64Value (base64Char v) = Some v.
Proof.
  intros Hv. unfold base64Value.
  destruct (base64Char_cases v) as [[H ->]|[[H ->]|[[H ->]|[[H ->]|[H ->]]]]].
  - destruct (N.leb_spec 65 (65 + v)), (N.leb_spec (65 + v) 90); try lia.
    cbn [andb]. f_equal. lia.
  - destruct (N.leb_spec 65 (71 + v)), (N.leb_spec (71 + v) 90); try lia;
      destruct (N.leb_spec 97 (71 + v)), (N.leb_spec (71 + v) 122); try lia;
      cbn [andb]; f_equal; lia.
  - destruct (N.leb_spec 65 (v - 4)), (N.leb_spec (v - 4) 90); try lia;
      destruct (N.leb_spec 97 (v - 4)), (N.leb_spec (v - 4) 122); try lia;
      destruct (N.leb_spec 48 (v - 4)), (N.leb_spec (v - 4) 57); try lia;
      cbn [andb]; f_equal; lia.
  - subst v. reflexivity.
  - assert (v = 63) by lia. subst v. reflexivity.
Qed.

Lemma base64Char_plain (v : N) :
  isAsciiWhitespace (base64Char v) = false /\ (base64Char v =? pad) = false.
Proof.
  unfold isAsciiWhitespace, pad.
  destruct (base64Char_cases v) as [[H ->]|[[H ->]|[[H ->]|[[H ->]|[H ->]]]]];
    try (split; reflexivity);
    (split; [repeat (apply orb_false_iff; split)|]; apply N.eqb_neq; lia).
Qed.

Lemma pad_plain : isAsciiWhitespace pad = false.
Proof. reflexivity. Qed.

Lemma sextet_a (a b : N) :
  a < 256 -> b < 256 ->
  a / 4 < 64 /\ (a mod 4) * 16 + b / 16 < 64
  /\ a / 4 * 4 + ((a mod 4) * 16 + b / 16) / 16 = a.
Proof.
  intros Ha Hb.
  pose proof (N.div_mod a 4 ltac:(lia)). pose proof (N.mod_lt a 4 ltac:(lia)).
  pose proof (N.div_mod b 16 ltac:(lia)). pose proof (N.mod_lt b 16 ltac:(lia)).
  assert (b / 16 < 16) by (apply N.Div0.div_lt_upper_bound; lia).
  assert (a / 4 < 64) by (apply N.Div0.div_lt_upper_bound; lia).
  assert (((a mod 4) * 16 + b / 16) / 16 = a mod 4).
  { rewrite N.div_add_l by lia. rewrite (N.div_small (b / 16)) by lia. lia. }
  lia.
Qed.

Lemma sextet_b (a b c : N) :
  b < 256 -> c < 256 ->
  (b mod 16) * 4 + c / 64 < 64
  /\ (((a mod 4) * 16 + b / 16) mod 16) * 16 + ((b mod 16) * 4 + c / 64) / 4 = b.
Proof.
  intros Hb Hc.
  pose proof (N.div_mod b 16 ltac:(lia)). pose proof (N.mod_lt b 16 ltac:(lia)).
  assert (b / 16 < 16) by (apply N.Div0.div_lt_upper_bound; lia).
  assert (c / 64 < 4) by (apply N.Div0.div_lt_upper_bound; lia).
  assert (((a mod 4) * 16 + b / 16) mod 16 = b / 16).
  { rewrite N.add_comm, N.Div0.mod_add. apply N.mod_small. lia. }
  assert (((b mod 16) * 4 + c / 64) / 4 = b mod 16).
  { rewrite N.div_add_l by lia. rewrite (N.div_small (c / 64)) by lia. lia. }
  lia.
Qed.

Lemma sextet_c (b c : N) :
  c < 256 ->
  c mod 64 < 64
  /\ (((b mod 16) * 4 + c / 64) mod 4) * 64 + c mod 64 = c.
Proof.
  intros Hc.
  pose proof (N.div_mod c 64 ltac:(lia)). pose proof (N.mod_lt c 64 ltac:(lia)).
  assert (c / 64 < 4) by (apply N.Div0.div_lt_upper_bound; lia).
  assert (((b mod 16) * 4 + c / 64) mod 4 = c / 64).
  { rewrite N.add_comm, N.Div0.mod_add. apply N.mod_small. lia. }
  lia.
Qed.

Lemma isPadding_head (c : N) (rest : list N) :
  (c =? pad) = false -> isPadding (c :: rest) = false.
Proof. intros H. destruct rest as [|b [|d rest]]; simpl; now rewrite ?H. Qed.

Lemma stripPadding_cons (v : N) (rest : list N) :
  stripPadding (base64Char v :: rest) = base64Char v :: stripPadding rest.
Proof.
  cbn [stripPadding].
  now rewrite (isPadding_head _ _ (proj2 (base64Char_plain v))).
Qed.

Lemma encodeBytes_plain (l : list N) :
  filter (fun c => negb (isAsciiWhitespace c)) (encodeBytes l) = encodeBytes l.
Proof.
  induction l as [|a|a b|a b c rest IH] using list_ind3; cbn [encodeBytes filter];
    rewrite ?(proj1 (base64Char_plain _)), ?pad_plain; cbn [negb];
    rewrite ?IH; reflexivity.
Qed.

Lemma encodeBytes_length (l : list N) :
  (List.length (encodeBytes l) mod 4 = 0)%nat.
Proof.
  induction l as [|a|a b|a b c rest IH] using list_ind3; try reflexivity.
  cbn [encodeBytes List.length].
  change (S (S (S (S (List.length (encodeBytes rest))))))
    with (4 + List.length (encodeBytes rest))%nat.
  rewrite Nat.Div0.add_mod, IH. reflexivity.
Qed.

Lemma base64Values_length (l vs : list N) :
  base64Values l = Some vs -> List.length vs = List.length l.
Proof.
  revert vs. induction l as [|c l IH]; intros vs; simpl.
  - intros E. injection E as <-. reflexivity.
  - destruct (base64Value c); [|discriminate].
    destruct (base64Values l) as [vs'|]; [|discriminate].
    intros E. injection E as <-. simpl. f_equal. now apply IH.
Qed.

(** Decoding what [encodeBytes] wrote, once the padding is removed, gives
    the bytes back; the number of characters left is never 1 modulo 4. *)
Lemma decode_encode (l : list N) :
  Forall (fun c => c < 256) l ->
  exists vs,
    base64Values (stripPadding (encodeBytes l)) = Some vs
    /\ decodeValues vs = l
    /\ (List.length vs mod 4 =? 1)%nat = false.
Proof.
  induction l as [|a|a b|a b c rest IH] using list_ind3; intros Hl.
  - exists []. repeat split.
  - inversion Hl as [|? ? Ha _]; subst.
    destruct (sextet_a a 0 Ha ltac:(lia)) as (H1 & H2 & H3).
    change (0 / 16) with 0 in *. rewrite N.add_0_r in *.
    exists [a / 4; (a mod 4) * 16].
    cbn [encodeBytes]. rewrite !stripPadding_cons. cbn [stripPadding isPadding].
    rewrite N.eqb_refl. cbn [andb base64Values].
    rewrite !base64Char_value by assumption.
    split; [reflexivity|]. split; [|reflexivity].
    cbn [decodeValues]. now rewrite H3.
  - inversion Hl as [|? ? Ha Hl']; subst. inversion Hl' as [|? ? Hb _]; subst.
    destruct (sextet_a a b Ha Hb) as (H1 & H2 & H3).
    destruct (sextet_b a b 0 Hb ltac:(lia)) as (H4 & H5).
    change (0 / 64) with 0 in *. rewrite N.add_0_r in *.
    exists [a / 4; (a mod 4) * 16 + b / 16; (b mod 16) * 4].
    cbn [encodeBytes]. rewrite !stripPadding_cons. cbn [stripPadding isPadding].
    rewrite N.eqb_refl. cbn [base64Values].
    rewrite !base64Char_value by assumption.
    split; [reflexivity|]. split; [|reflexivity].
    cbn [decodeValues]. now rewrite H3, H5.
  - inversion Hl as [|? ? Ha Hl1]; subst. inversion Hl1 as [|? ? Hb Hl2]; subst.
    inversion Hl2 as [|? ? Hc Hrest]; subst.
    destruct (IH Hrest) as (vs & Hvs & Hdec & Hlen).
    destruct (sextet_a a b Ha Hb) as (H1 & H2 & H3).
    destruct (sextet_b a b c Hb Hc) as (H4 & H5).
    destruct (sextet_c b c Hc) as (H6 & H7).
    exists (a / 4 :: (a mod 4) * 16 + b / 16 :: (b mod 16) * 4 + c / 64
              :: c mod 64 :: vs).
    cbn [encodeBytes]. rewrite !stripPadding_cons. cbn [base64Values].
    rewrite !base64Char_value by assumption. rewrite Hvs.
    split; [reflexivity|]. split.
    + cbn [decodeValues]. now rewrite H3, H5, H7, Hdec.
    + cbn [List.length].
      change (S (S (S (S (List.length vs))))) with (4 + List.length vs)%nat.
      rewrite Nat.Div0.add_mod. change (4 mod 4)%nat with 0%nat.
      cbn [Nat.add]. now rewrite Nat.Div0.mod_mod.
Qed.

Lemma atob_encode (l : list N) :
  Forall (fun c => c < 256) l -> atob (encodeBytes l) = Some l.
Proof.
  intros Hl. unfold atob. rewrite encodeBytes_plain, encodeBytes_length.
  cbn [Nat.eqb]. destruct (decode_encode l Hl) as (vs & Hvs & Hdec & Hlen).
  rewrite <- (base64Values_length _ _ Hvs), Hlen, Hvs. cbn [option_map].
  now rewrite Hdec.
Qed.

Lemma lxor_below (n a b : N) : a < 2 ^ n -> b < 2 ^ n -> N.lxor a b < 2 ^ n.
Proof.
  intros Ha Hb. destruct (N.eq_dec (N.lxor a b) 0) as [->|Hne]; [lia|].
  apply N.log2_lt_pow2; [lia|].
  destruct (N.eq_dec a 0) as [->|Ha0].
  - rewrite N.lxor_0_l in *. apply N.log2_lt_pow2; lia.
  - destruct (N.eq_dec b 0) as [->|Hb0].
    + rewrite N.lxor_0_r in *. apply N.log2_lt_pow2; lia.
    + pose proof (N.log2_lxor a b).
      assert (N.log2 a < n) by (apply N.log2_lt_pow2; lia).
      assert (N.log2 b < n) by (apply N.log2_lt_pow2; lia).
      lia.
Qed.

Lemma keyCodeAt_ascii (i : nat) : keyCodeAt i < 128.
Proof.
  unfold keyCodeAt.
  assert (H : Forall (fun k => k < 128) ENCRYPTION_KEY)
    by (repeat constructor).
  rewrite Forall_forall in H. apply H, nth_In.
  apply Nat.mod_upper_bound. discriminate.
Qed.

Lemma xor_char_latin1 (i : nat) (c : N) :
  c < 256 -> fromCharCode (N.lxor c (keyCodeAt i)) = N.lxor c (keyCodeAt i)
             /\ N.lxor c (keyCodeAt i) < 256.
Proof.
  intros Hc. pose proof (keyCodeAt_ascii i).
  assert (N.lxor c (keyCodeAt i) < 2 ^ 8) by (apply lxor_below; simpl; lia).
  change (2 ^ 8) with 256 in *. split; [|assumption].
  unfold fromCharCode. apply N.mod_small. lia.
Qed.

Lemma xor_char_wide (i : nat) (c : N) :
  256 <= c < 65536 -> 256 <= fromCharCode (N.lxor c (keyCodeAt i)).
Proof.
  intros Hc. pose proof (keyCodeAt_ascii i).
  assert (Hlt : N.lxor c (keyCodeAt i) < 2 ^ 16) by (apply lxor_below; simpl; lia).
  change (2 ^ 16) with 65536 in Hlt.
  unfold fromCharCode. rewrite N.mod_small by assumption.
  destruct (N.lt_ge_cases (N.lxor c (keyCodeAt i)) 256) as [Hsmall|]; [|assumption].
  assert (Hback : N.lxor (N.lxor c (keyCodeAt i)) (keyCodeAt i) < 2 ^ 8)
    by (apply lxor_below; simpl; lia).
  rewrite N.lxor_assoc, N.lxor_nilpotent, N.lxor_0_r in Hback.
  simpl in Hback. lia.
Qed.

Lemma xorFrom_latin1 (data : ustring) :
  Forall (fun c => c < 256) data ->
  forall i, Forall (fun c => c < 256) (xorFrom i data)
            /\ xorFrom i (xorFrom i data) = data.
Proof.
  induction 1 as [|c data Hc Hdata IH]; intros i; [split; constructor|].
  destruct (xor_char_latin1 i c Hc) as [E Hlt]. destruct (IH (S i)) as [IH1 IH2].
  cbn [xorFrom]. rewrite E. split; [now constructor|].
  destruct (xor_char_latin1 i _ Hlt) as [E' _]. rewrite E', IH2.
  now rewrite N.lxor_assoc, N.lxor_nilpotent, N.lxor_0_r.
Qed.

Lemma xorFrom_wide (data : ustring) :
  Forall (fun c => c < 65536) data -> Exists (fun c => 256 <= c) data ->
  forall i, forallb (fun c => c <? 256) (xorFrom i data) = false.
Proof.
  intros Hall Hex. induction Hex as [c data Hc|c data Hex IH]; intros i;
    inversion Hall as [|? ? Hc' Hall']; subst; cbn [xorFrom forallb].
  - pose proof (xor_char_wide i c ltac:(lia)) as Hw.
    destruct (N.ltb_spec (fromCharCode (N.lxor c (keyCodeAt i))) 256); [lia|reflexivity].
  - rewrite (IH Hall' (S i)). apply andb_false_r.
Qed.

Lemma forallb_latin1 (data : ustring) :
  Forall (fun c => c < 256) data -> forallb (fun c => c <? 256) data = true.
Proof.
  intros H. apply forallb_forall. rewrite Forall_forall in H.
  intros c Hc. apply N.ltb_lt. auto.
Qed.

Lemma encodeBytes_nonempty (l : list N) : l <> [] -> encodeBytes l <> [].
Proof. destruct l as [|a [|b [|c rest]]]; [congruence| | |]; discriminate. Qed.

Lemma stripPadding_In (c : N) (l : list N) :
  In c l -> c <> pad -> In c (stripPadding l).
Proof.
  induction l as [|x l IH]; [contradiction|]. intros Hin Hc.
  cbn [stripPadding]. destruct (isPadding (x :: l)) eqn:Hp.
  - exfalso. destruct l as [|y [|z l]]; simpl in Hp; try discriminate.
    + apply N.eqb_eq in Hp. destruct Hin as [->|[]]. contradiction.
    + apply andb_true_iff in Hp as [H1 H2]. apply N.eqb_eq in H1, H2.
      destruct Hin as [->|[->|[]]]; contradiction.
  - destruct Hin as [->|Hin]; [now left|right; auto].
Qed.

Lemma base64Values_invalid (c : N) (l : list N) :
  In c l -> base64Value c = None -> base64Values l = None.
Proof.
  induction l as [|x l IH]; [contradiction|]. intros [->|Hin] Hc; simpl.
  - now rewrite Hc.
  - rewrite (IH Hin Hc). now destruct (base64Value x).
Qed.

Lemma wide_invalid (c : N) :
  256 <= c -> base64Value c = None /\ isAsciiWhitespace c = false /\ c <> pad.
Proof.
  intros Hc. unfold base64Value, isAsciiWhitespace, pad.
  destruct (N.leb_spec c 90), (N.leb_spec c 122), (N.leb_spec c 57); try lia.
  rewrite !andb_false_r.
  destruct (N.eqb_spec c 43), (N.eqb_spec c 47), (N.eqb_spec c 9),
    (N.eqb_spec c 10), (N.eqb_spec c 12), (N.eqb_spec c 13), (N.eqb_spec c 32);
    try lia.
  repeat split. lia.
Qed.

Lemma atob_wide (data : ustring) :
  Exists (fun c => 256 <= c) data -> atob data = None.
Proof.
  intros Hex. apply Exists_exists in Hex as (c & Hin & Hc).
  destruct (wide_invalid c Hc) as (Hv & Hw & Hp).
  unfold atob.
  set (d := filter (fun c => negb (isAsciiWhitespace c)) data).
  assert (Hd : In c d) by (apply filter_In; split; [exact Hin|now rewrite Hw]).
  set (d' := if (List.length d mod 4 =? 0)%nat then stripPadding d else d).
  assert (Hd' : In c d').
  { unfold d'. destruct (List.length d mod 4 =? 0)%nat; [|exact Hd].
    now apply stripPadding_In. }
  destruct (List.length d' mod 4 =? 1)%nat; [reflexivity|].
  now rewrite (base64Values_invalid c d' Hd' Hv).
Qed.

Lemma encodeBytes_alphabet (l : list N) :
  Forall (fun c => (exists v, v < 64 /\ base64Value c = Some v) \/ c = pad)
    (encodeBytes l).
Proof.
  assert (Hc : forall v, (exists v', v' < 64 /\ base64Value (base64Char v) = Some v')
                         \/ base64Char v = pad).
  { intros v. left. destruct (N.lt_ge_cases v 64) as [Hv|Hv].
    - exists v. split; [exact Hv|now apply base64Char_value].
    - exists 63. split; [lia|].
      destruct (base64Char_cases v) as [[H _]|[[H _]|[[H _]|[[H _]|[H ->]]]]];
        try lia. reflexivity. }
  induction l as [|a|a b|a b c rest IH] using list_ind3; cbn [encodeBytes];
    repeat (constructor; [solve [apply Hc | now right]|]); auto.
Qed.

Lemma decrypt_encrypt_eq (data : ustring) :
  Forall (fun c => c < 256) data -> decryptData (encryptData data) = data.
Proof.
  intros Hl. destruct data as [|c rest]; [reflexivity|].
  destruct (xorFrom_latin1 _ Hl 0) as [Hx Hinv].
  assert (He : encryptData (c :: rest) = encodeBytes (xorFrom 0 (c :: rest))).
  { unfold encryptData, btoa. now rewrite (forallb_latin1 _ Hx). }
  rewrite He. unfold decryptData. rewrite (atob_encode _ Hx), Hinv.
  destruct (encodeBytes (xorFrom 0 (c :: rest))) eqn:E; [|reflexivity].
  now apply encodeBytes_nonempty in E.
Qed.

Lemma encrypt_latin1 (data : ustring) :
  Forall (fun c => c < 256) data ->
  data = [] \/ encryptData data = encodeBytes (xorFrom 0 data).
Proof.
  intros Hl. destruct data as [|c rest]; [now left|right].
  destruct (xorFrom_latin1 _ Hl 0) as [Hx _].
  unfold encryptData, btoa. now rewrite (forallb_latin1 _ Hx).
Qed.

Lemma encrypt_alphabet (data : ustring) :
  Forall (fun c => c < 256) data ->
  Forall (fun c => (exists v, v < 64 /\ base64Value c = Some v) \/ c = pad)
    (encryptData data).
Proof.
  intros Hl. destruct (encrypt_latin1 data Hl) as [-> | ->]; [constructor|].
  apply encodeBytes_alphabet.
Qed.

Lemma encrypt_wide_plain (data : ustring) :
  Forall (fun c => c < 65536) data -> Exists (fun c => 256 <= c) data ->
  encryptData data = data.
Proof.
  intros Hall Hex. unfold encryptData, btoa.
  rewrite (xorFrom_wide _ Hall Hex 0). now destruct data.
Qed.

Lemma decrypt_wide (data : ustring) :
  Exists (fun c => 256 <= c) data -> decryptData data = [].
Proof.
  intros Hex. unfold decryptData. rewrite (atob_wide _ Hex). now destruct data.
Qed.

Lemma ustring_eqb_refl (a : ustring) : ustring_eqb a a = true.
Proof. unfold ustring_eqb. destruct (list_eq_dec N.eq_dec a a); congruence. Qed.

Lemma ustring_eqb_neq (a b : ustring) : a <> b -> ustring_eqb a b = false.
Proof. unfold ustring_eqb. destruct (list_eq_dec N.eq_dec a b); congruence. Qed.

Lemma getItem_removeItem (key other : ustring) (storage : Storage) :
  other <> key -> getItem other (removeItem key storage) = getItem other storage.
Proof.
  intros Hne. induction storage as [|[k v] rest IH]; [reflexivity|].
  unfold removeItem in *. cbn [filter fst].
  unfold ustring_eqb at 1. destruct (list_eq_dec N.eq_dec k key) as [->|Hk]; cbn [negb].
  - cbn [getItem]. rewrite (ustring_eqb_neq key other) by congruence. exact IH.
  - cbn [getItem]. now rewrite IH.
Qed.

Lemma secureRetrieve_same (key data : ustring) (storage : Storage) :
  Forall (fun c => c < 256) data ->
  secureRetrieve key (secureStore key data storage) = data.
Proof.
  intros Hl. unfold secureRetrieve, secureStore, setItem. cbn [getItem].
  rewrite ustring_eqb_refl.
  destruct (encryptData data) as [|c rest] eqn:E.
  - destruct data as [|d ds]; [reflexivity|].
    destruct (encrypt_latin1 _ Hl) as [E'|E']; [discriminate|].
    rewrite E' in E. exfalso.
    apply (encodeBytes_nonempty (xorFrom 0 (d :: ds))); [discriminate|exact E].
  - rewrite <- E. now apply decrypt_encrypt_eq.
Qed.

Lemma secureRetrieve_other (key other data : ustring) (storage : Storage) :
  other <> key ->
  secureRetrieve other (secureStore key data storage) = secureRetrieve other storage.
Proof.
  intros Hne. unfold secureRetrieve, secureStore, setItem. cbn [getItem].
  rewrite (ustring_eqb_neq key other) by congruence.
  now rewrite getItem_removeItem.
Qed.

End SecureFacts.

(** X23: what [encryptData] returns for data of Latin-1 code units
    (every unit below 256), [decryptData] turns back into the data, and
    the ciphertext is made of characters of the base64 alphabet and of
    padding only. *)
Theorem decrypt_encrypt (data : Secure.ustring) :
  Forall (fun c => (c < 256)%N) data ->
  Secure.decryptData (Secure.encryptData data) = data
  /\ Forall (fun c => (exists v, (v < 64)%N /\ Secure.base64Value c = Some v)
                      \/ c = Secure.pad)
       (Secure.encryptData data).
Proof.
  intros Hl. split.
  - now apply SecureFacts.decrypt_encrypt_eq.
  - now apply SecureFacts.encrypt_alphabet.
Qed.

Lemma decrypt_encrypt_witness :
  Secure.decryptData (Secure.encryptData (Secure.ofString "Brand,Model"))
  = Secure.ofString "Brand,Model".
Proof.
  refine (proj1 (decrypt_encrypt (Secure.ofString "Brand,Model") _)).
  repeat constructor.
Defined.

(** X24: data that holds a code unit above 255 (a rupee sign, say) is
    not encrypted: [btoa] refuses it and [encryptData] returns the data
    as it is, in clear; [decryptData] then fails on it and returns the
    empty string, so the data is lost. *)
Theorem encrypt_wide (data : Secure.ustring) :
  Forall (fun c => (c < 65536)%N) data -> Exists (fun c => (256 <= c)%N) data ->
  Secure.encryptData data = data
  /\ Secure.decryptData (Secure.encryptData data) = [].
Proof.
  intros Hall Hex.
  rewrite (SecureFacts.encrypt_wide_plain data Hall Hex).
  split; [reflexivity|]. now apply SecureFacts.decrypt_wide.
Qed.

Lemma encrypt_wide_witness :
  Secure.encryptData (Secure.ofString "Rs " ++ [8377; 53]%N)%list
  = (Secure.ofString "Rs " ++ [8377; 53]%N)%list.
Proof.
  refine (proj1 (encrypt_wide (Secure.ofString "Rs " ++ [8377; 53]%N)%list _ _)).
  - repeat constructor.
  - apply Exists_exists. exists 8377%N. split; [simpl; tauto|lia].
Defined.

(** X25: an item stored with [secureStore] is read back by
    [secureRetrieve] when its data is Latin-1; storing under one key
    leaves what is read under every other key as it was, and nothing
    is read after [clearSecureData]. *)
Theorem secureRetrieve_secureStore (key data : Secure.ustring)
    (storage : Secure.Storage) :
  Forall (fun c => (c < 256)%N) data ->
  Secure.secureRetrieve key (Secure.secureStore key data storage) = data
  /\ (forall other, other <> key ->
        Secure.secureRetrieve other (Secure.secureStore key data storage)
        = Secure.secureRetrieve other storage)
  /\ (forall other,
        Secure.secureRetrieve other (Secure.clearSecureData storage) = []).
Proof.
  intros Hl. split; [|split].
  - now apply SecureFacts.secureRetrieve_same.
  - intros other Hne. now apply SecureFacts.secureRetrieve_other.
  - reflexivity.
Qed.

Lemma secureRetrieve_secureStore_witness :
  Secure.secureRetrieve (Secure.ofString "history")
    (Secure.secureStore (Secure.ofString "history") (Secure.ofString "Brand,Model") [])
  = Secure.ofString "Brand,Model".
Proof.
  refine (proj1 (secureRetrieve_secureStore (Secure.ofString "history")
                   (Secure.ofString "Brand,Model") [] _)).
  repeat constructor.
Defined.
